(** * Flow-run utilities: step-output lookup, failed-step search, loop display state

    A shallow embedding of [flowRunUtils] (the TypeScript module exporting
    [findFailedStep], [findLoopsState], [extractStepOutput],
    [getStatusIconForStep] and [getStatusIcon]) together with the properties
    its specification states about it.

    Conventions of the embedding:
    - a JavaScript object used as a record with string keys and read through
      [Object.entries] is an association list in entry order, looked up by
      its first matching key;
    - a [Record<string, number>] that is only read by key and extended by
      object spread is a [gmap string Z];
    - [null] and [undefined] results are [None];
    - an iteration index is an integer of [Z] (a JavaScript number that is not
      an integer addresses no element of an array, as one out of range);
    - step names are well-formed identifiers: they are not empty, they are
      not integer-like, so [Object.entries] yields them in insertion order,
      and they do not collide with members of [Object.prototype]. *)

From Stdlib Require Import ZArith List String Bool Lia.
From stdpp Require Import gmap strings.
Import ListNotations.

Local Open Scope string_scope.
Local Set Warnings "-register-all".

(** ** Enumerations imported from the shared package *)

(** Modelled from the spec: the enumerations [StepOutputStatus],
    [FlowRunStatus], [ActionType] and [TriggerType] of the shared package,
    whose declarations are missing from the sources at hand.  The statuses are
    the ones section 6 lists, which are also the cases of the two switches of
    this module; of the action types only [LOOP_ON_ITEMS] is ever tested. *)

Module StepOutputStatus.
Inductive t : Set := FAILED | PAUSED | RUNNING | STOPPED | SUCCEEDED.

Definition eqb (a b : t) : bool :=
  match a, b with
  | FAILED, FAILED | PAUSED, PAUSED | RUNNING, RUNNING
  | STOPPED, STOPPED | SUCCEEDED, SUCCEEDED => true
  | _, _ => false
  end.
End StepOutputStatus.

Module FlowRunStatus.
Inductive t : Set :=
| FAILED | QUOTA_EXCEEDED | INTERNAL_ERROR | PAUSED
| RUNNING | STOPPED | SUCCEEDED | TIMEOUT.
End FlowRunStatus.

Module ActionType.
Inductive t : Set := CODE | PIECE | LOOP_ON_ITEMS.

Definition eqb (a b : t) : bool :=
  match a, b with
  | CODE, CODE | PIECE, PIECE | LOOP_ON_ITEMS, LOOP_ON_ITEMS => true
  | _, _ => false
  end.
End ActionType.

Module TriggerType.
Inductive t : Set := EMPTY | PIECE.
End TriggerType.

(** ** Run data: step outputs *)

(** The [output] of a record that is not a loop record has type [unknown] in
    the source.  The code of this module only ever tests it for truthiness and,
    behind the cast [as LoopStepOutput], reads [.iterations] of it; it is
    modelled by what those two operations observe: a falsy value, or a truthy
    value carrying no [iterations] array. *)
Inductive Unknown : Set := Falsy | Opaque.

(** The tag of a record that is not a loop record. *)
Inductive GenericKind : Set :=
| TriggerKind (t : TriggerType.t)
| CodeKind
| PieceKind.

(** Modelled from the spec: [StepOutput], [LoopStepOutput] and
    [LoopStepResult] of the shared package (section 3), missing from the
    sources at hand.  [StepOutput] is a union discriminated by [type]: when
    [type] is [LOOP_ON_ITEMS] the optional [output] is a [LoopStepResult], the
    ordered sequence of its iteration snapshots.  The fields
    [input], [duration], [errorMessage] of a record and [item], [index] of a
    loop result are never read by this module and are left out. *)
Inductive StepOutput : Type :=
| GenericStepOutput (type : GenericKind) (status : StepOutputStatus.t)
                    (output : Unknown)
| LoopStepOutput (status : StepOutputStatus.t)
                 (output : option LoopStepResult)
with LoopStepResult : Type :=
| mkLoopStepResult (iterations : list (list (string * StepOutput))).

(** [Record<string, StepOutput>], in [Object.entries] order. *)
Abbreviation StepOutputs := (list (string * StepOutput)).

Definition status (o : StepOutput) : StepOutputStatus.t :=
  match o with
  | GenericStepOutput _ s _ => s
  | LoopStepOutput s _ => s
  end.

Definition iterations (r : LoopStepResult) : list StepOutputs :=
  match r with mkLoopStepResult its => its end.

(** [obj[key]] on an object given by its entries. *)
Fixpoint lookupKey {A : Type} (key : string) (obj : list (string * A))
  : option A :=
  match obj with
  | [] => None
  | (k, v) :: rest => if String.eqb key k then Some v else lookupKey key rest
  end.

(** [arr[i]] for a number [i]: defined exactly for [0 <= i < arr.length]. *)
Fixpoint arrayAt {A : Type} (arr : list A) (i : Z) : option A :=
  match arr with
  | [] => None
  | x :: rest => if (i =? 0)%Z then Some x else arrayAt rest (i - 1)%Z
  end.

(** Modelled from the spec: [FlowRun] of the shared package, of which this
    module reads [steps] only; [findLoopsState] tests [run.steps] for
    presence, so the field is optional. *)
Record FlowRun : Type := mkFlowRun { steps : option StepOutputs }.

(** Outcome of a call: a returned value or a raised [TypeError]. *)
Inductive Result (A : Type) : Type :=
| Ok (value : A)
| Throw.
Arguments Ok {A} value.
Arguments Throw {A}.

(** Modelled from the spec: [isNil] of the shared package, missing from the
    sources at hand; "no failed step has been found yet" is [isNil(res)],
    true exactly for [null] and [undefined]. *)
Definition isNil {A : Type} (v : option A) : bool :=
  match v with None => true | Some _ => false end.

(** [a ?? b]. *)
Definition nullish {A : Type} (a b : option A) : option A :=
  match a with Some _ => a | None => b end.

(** ** Failure finder *)

(** The reducer over [Object.entries]: the source writes the same callback
    twice, once in [findFailedStep] and once inside [findFailedStepInLoop];
    it is stated once here, with the recursive call [inLoop] as an argument. *)
Definition failedStepReducer (inLoop : LoopStepResult -> option string)
           (res : option string) (entry : string * StepOutput)
  : option string :=
  let '(stepName, step) := entry in
  if StepOutputStatus.eqb (status step) StepOutputStatus.FAILED then
    Some stepName
  else
    match step with
    | LoopStepOutput _ (Some output) =>
        if isNil res then inLoop output else res
    | _ => res
    end.

Fixpoint findFailedStepInLoop (loopStepResult : LoopStepResult)
  : option string :=
  match loopStepResult with
  | mkLoopStepResult its =>
      fold_left
        (fun res iteration =>
           let failedStepWithinLoop :=
             fold_left (failedStepReducer findFailedStepInLoop)
                       iteration None in
           nullish res failedStepWithinLoop)
        its None
  end.

Definition findFailedStep (run : FlowRun) : Result (option string) :=
  match steps run with
  | None => Throw
  | Some entries =>
      Ok (fold_left (failedStepReducer findFailedStepInLoop) entries None)
  end.

(** ** Flow definition: the tree of steps *)

(** Modelled from the spec: the node types of the shared package, missing from
    the sources at hand.  Every node has a [name]; an action has an optional
    successor [nextAction]; a loop action also owns [firstLoopAction], the head
    of its body. *)
Inductive Action : Type :=
| CodeAction (name : string) (nextAction : option Action)
| PieceAction (name : string) (nextAction : option Action)
| LoopOnItemsAction (name : string) (firstLoopAction : option Action)
                    (nextAction : option Action).

Record Trigger : Type := mkTrigger {
  triggerName : string;
  triggerType : TriggerType.t;
  triggerNextAction : option Action
}.

Inductive Step : Type :=
| TriggerStep (t : Trigger)
| ActionStep (a : Action).

Record FlowVersion : Type := mkFlowVersion { trigger : Trigger }.

Definition actionName (a : Action) : string :=
  match a with
  | CodeAction n _ | PieceAction n _ | LoopOnItemsAction n _ _ => n
  end.

Definition actionType (a : Action) : ActionType.t :=
  match a with
  | CodeAction _ _ => ActionType.CODE
  | PieceAction _ _ => ActionType.PIECE
  | LoopOnItemsAction _ _ _ => ActionType.LOOP_ON_ITEMS
  end.

Definition stepName (s : Step) : string :=
  match s with
  | TriggerStep t => triggerName t
  | ActionStep a => actionName a
  end.

(** [s.type === ActionType.LOOP_ON_ITEMS]; the type of a trigger is a
    [TriggerType], never equal to it. *)
Definition isLoopOnItems (s : Step) : bool :=
  match s with
  | TriggerStep _ => false
  | ActionStep a => ActionType.eqb (actionType a) ActionType.LOOP_ON_ITEMS
  end.

(** The three functions of [flowHelper] this module calls.  Their code lives
    in the shared package; the functions below are stated for any
    implementation of them. *)
Record FlowHelper : Type := mkFlowHelper {
  getAllSteps : Trigger -> list Step;
  isChildOf : Step -> string -> bool;
  findPathToStep : Trigger -> string -> option (list Step)
}.

(** ** Status icons *)

Inductive LucideIcon : Set :=
| Check | CircleCheck | CircleX | PauseCircleIcon | PauseIcon | Timer | X.

Record StatusIcon : Set := mkStatusIcon { variant : string; Icon : LucideIcon }.

Definition getStatusIconForStep (stepOutput : StepOutputStatus.t) : StatusIcon :=
  match stepOutput with
  | StepOutputStatus.RUNNING => mkStatusIcon "default" Timer
  | StepOutputStatus.PAUSED => mkStatusIcon "default" PauseCircleIcon
  | StepOutputStatus.STOPPED
  | StepOutputStatus.SUCCEEDED => mkStatusIcon "success" CircleCheck
  | StepOutputStatus.FAILED => mkStatusIcon "error" CircleX
  end.

Definition getStatusIcon (status : FlowRunStatus.t) : StatusIcon :=
  match status with
  | FlowRunStatus.RUNNING => mkStatusIcon "default" Timer
  | FlowRunStatus.SUCCEEDED => mkStatusIcon "success" Check
  | FlowRunStatus.STOPPED => mkStatusIcon "success" Check
  | FlowRunStatus.FAILED => mkStatusIcon "error" X
  | FlowRunStatus.PAUSED => mkStatusIcon "default" PauseIcon
  | FlowRunStatus.QUOTA_EXCEEDED => mkStatusIcon "error" X
  | FlowRunStatus.INTERNAL_ERROR => mkStatusIcon "error" X
  | FlowRunStatus.TIMEOUT => mkStatusIcon "error" X
  end.

(** ** Output locator *)

(** The guard of the descent loop,
    [childOutput && childOutput.output &&
     childOutput.output.iterations[loopIndexes[currentParentName]]]:
    [Ok (Some snapshot)] when it holds, [Ok None] when it is falsy, [Throw]
    when reading [.iterations[...]] raises.  An iteration snapshot is an
    object, hence truthy whenever it exists. *)
Definition iterationSnapshot (loopIndexes : gmap string Z)
           (currentParentName : string) (childOutput : option StepOutput)
  : Result (option StepOutputs) :=
  match childOutput with
  | None => Ok None
  | Some (GenericStepOutput _ _ Falsy) => Ok None
  | Some (GenericStepOutput _ _ Opaque) => Throw
  | Some (LoopStepOutput _ None) => Ok None
  | Some (LoopStepOutput _ (Some output)) =>
      match loopIndexes !! currentParentName with
      | None => Ok None
      | Some i => Ok (arrayAt (iterations output) i)
      end
  end.

(** The [while] loop of [getLoopChildStepOutput]; [parents] is the part of
    the array from [index] on. *)
Fixpoint descendLoops (loopIndexes : gmap string Z) (childName : string)
         (parents : list Step) (childOutput : option StepOutput)
  : Result (option StepOutput) :=
  match parents with
  | [] => Ok childOutput
  | parent :: rest =>
      match iterationSnapshot loopIndexes (stepName parent) childOutput with
      | Throw => Throw
      | Ok None => descendLoops loopIndexes childName rest childOutput
      | Ok (Some snapshot) =>
          let stepName' :=
            match rest with
            | next :: _ => stepName next
            | [] => childName
            end in
          descendLoops loopIndexes childName rest (lookupKey stepName' snapshot)
      end
  end.

Definition getLoopChildStepOutput (parents : list Step)
           (loopIndexes : gmap string Z) (childName : string)
           (runOutput : StepOutputs) : Result (option StepOutput) :=
  match parents with
  | [] => Ok None
  | first :: _ =>
      descendLoops loopIndexes childName parents
                   (lookupKey (stepName first) runOutput)
  end.

Definition MAX_SAFE_INTEGER : Z := 9007199254740991.

Section FlowRunUtils.

Variable flowHelper : FlowHelper.

Definition extractStepOutput (stepName : string)
           (loopIndexes : gmap string Z) (output : StepOutputs)
           (trigger : Trigger) : Result (option StepOutput) :=
  match lookupKey stepName output with
  | Some stepOutput => Ok (Some stepOutput)
  | None =>
      match findPathToStep flowHelper trigger stepName with
      | Some parents =>
          getLoopChildStepOutput (List.filter isLoopOnItems parents)
                                 loopIndexes stepName output
      | None => Ok None
      end
  end.

(** [failedStep && flowHelper.isChildOf(step, failedStep)] as a condition:
    [null] and the empty string are falsy. *)
Definition isFailedStepParent (failedStep : option string) (step : Step)
  : bool :=
  match failedStep with
  | None => false
  | Some name =>
      if String.eqb name "" then false else isChildOf flowHelper step name
  end.

Definition findLoopsState (flowVersion : FlowVersion) (run : FlowRun)
           (currentLoopsState : gmap string Z) : Result (gmap string Z) :=
  let loops :=
    List.filter isLoopOnItems (getAllSteps flowHelper (trigger flowVersion)) in
  match (match steps run with
         | Some _ => findFailedStep run
         | None => Ok None
         end) with
  | Throw => Throw
  | Ok failedStep =>
      Ok (fold_left
            (fun res step =>
               <[ stepName step :=
                    if isFailedStepParent failedStep step
                    then MAX_SAFE_INTEGER
                    else default 0%Z (currentLoopsState !! stepName step) ]>
                 res)
            loops currentLoopsState)
  end.

End FlowRunUtils.

(** ** A reference implementation of [flowHelper] *)

Module SpecFlowHelper.

(** Modelled from the spec: the traversal behind [flowHelper.getAllSteps],
    missing from the sources at hand: every node of a chain, following
    [nextAction] and descending into [firstLoopAction] of each loop. *)
Fixpoint allActions (a : Action) : list Action :=
  let chain (o : option Action) :=
    match o with Some b => allActions b | None => [] end in
  match a with
  | CodeAction _ next | PieceAction _ next => a :: chain next
  | LoopOnItemsAction _ first next => a :: chain first ++ chain next
  end.

(** Modelled from the spec: [flowHelper.getAllSteps], "every loop-type node
    anywhere in the flow (flattened, regardless of nesting depth)" is
    filtered out of its result. *)
Definition getAllSteps (t : Trigger) : list Step :=
  TriggerStep t ::
  map ActionStep
      (match triggerNextAction t with Some a => allActions a | None => [] end).

(** Modelled from the spec: [flowHelper.isChildOf], "the failed step is a
    structural descendant of this loop (an ancestor/descendant relation over
    the flow tree)". *)
Definition isChildOf (parent : Step) (childStepName : string) : bool :=
  match parent with
  | ActionStep (LoopOnItemsAction _ (Some first) _) =>
      existsb (fun c => String.eqb (actionName c) childStepName)
              (allActions first)
  | _ => false
  end.

(** Modelled from the spec: the search of [flowHelper.findPathToStep] below
    one action: the loop ancestors of the target in root-to-target order,
    [None] when the target is not in the chain. *)
Fixpoint pathInChain (targetStepName : string) (a : Action)
  : option (list Step) :=
  let search (o : option Action) :=
    match o with Some b => pathInChain targetStepName b | None => None end in
  if String.eqb (actionName a) targetStepName then Some []
  else
    match a with
    | CodeAction _ next | PieceAction _ next => search next
    | LoopOnItemsAction _ first next =>
        match search first with
        | Some path => Some (ActionStep a :: path)
        | None => search next
        end
    end.

(** Modelled from the spec: [flowHelper.findPathToStep] (section 4.1). *)
Definition findPathToStep (t : Trigger) (targetStepName : string)
  : option (list Step) :=
  if String.eqb (triggerName t) targetStepName then Some []
  else
    match triggerNextAction t with
    | Some a => pathInChain targetStepName a
    | None => None
    end.

Definition flowHelper : FlowHelper :=
  mkFlowHelper getAllSteps isChildOf findPathToStep.

End SpecFlowHelper.

(** ** Specification-side notions *)

(** [r.output.iterations[loopIndexes[loopName]]], read with optional chaining:
    the iteration snapshot of loop record [r] the caller's index addresses,
    when [r] is a loop record with an output and the index is in range. *)
Definition snapshotOf (loopIndexes : gmap string Z) (loopName : string)
           (r : StepOutput) : option StepOutputs :=
  match r with
  | LoopStepOutput _ (Some output) =>
      match loopIndexes !! loopName with
      | Some i => arrayAt (iterations output) i
      | None => None
      end
  | _ => None
  end.

(** The descent the specification describes, starting at the record [r] of
    loop [L]: [r.output.iterations[loopIndexes[L]][L2]...[step]].  The result
    is [None] as soon as an addressed iteration snapshot, or the record of an
    inner loop in it, does not exist; otherwise it is the entry found under
    [step] in the innermost snapshot (which may itself be absent). *)
Fixpoint addressedRecord (loopIndexes : gmap string Z) (step : string)
         (r : StepOutput) (L : Step) (inner : list Step)
  : option (option StepOutput) :=
  match snapshotOf loopIndexes (stepName L) r with
  | None => None
  | Some snapshot =>
      match inner with
      | [] => Some (lookupKey step snapshot)
      | L' :: inner' =>
          match lookupKey (stepName L') snapshot with
          | None => None
          | Some r' => addressedRecord loopIndexes step r' L' inner'
          end
      end
  end.

(** The index [i] does not address an element of [arr]. *)
Definition outOfRange {A : Type} (arr : list A) (i : Z) : Prop :=
  (i < 0 \/ Z.of_nat (length arr) <= i)%Z.

(** The caller's index for loop [loopName] is absent from [loopIndexes] or out
    of range of the iterations recorded in [output]. *)
Definition staleIndex (loopIndexes : gmap string Z) (loopName : string)
           (output : LoopStepResult) : Prop :=
  match loopIndexes !! loopName with
  | None => True
  | Some i => outOfRange (iterations output) i
  end.

Definition isLoopRecord (o : StepOutput) : bool :=
  match o with
  | LoopStepOutput _ _ => true
  | GenericStepOutput _ _ _ => false
  end.

(** An entry respects the typing of loops when a record stored under the name
    of one of [loops] is a loop record. *)
Definition entryTyped (loops : list string) (deep : StepOutput -> bool)
           (entry : string * StepOutput) : bool :=
  (implb (existsb (String.eqb (fst entry)) loops) (isLoopRecord (snd entry)))
  && deep (snd entry).

(** Every record nested in [o], at any depth, respects the typing of loops. *)
Fixpoint loopsTyped (loops : list string) (o : StepOutput) : bool :=
  match o with
  | LoopStepOutput _ (Some (mkLoopStepResult its)) =>
      forallb (forallb (entryTyped loops (loopsTyped loops))) its
  | _ => true
  end.

(** The run's output mapping respects the typing of loops at every depth. *)
Definition runTyped (loops : list string) (output : StepOutputs) : bool :=
  forallb (entryTyped loops (loopsTyped loops)) output.

(** Severity classes of the status indicators; [neutral] is rendered by the
    variant ['default']. *)
Inductive Severity : Set := neutral | success | error.

Definition severityOfVariant (v : string) : option Severity :=
  if String.eqb v "default" then Some neutral
  else if String.eqb v "success" then Some success
  else if String.eqb v "error" then Some error
  else None.

(** [step.status === StepOutputStatus.FAILED] *)
Definition isFailed (o : StepOutput) : bool :=
  StepOutputStatus.eqb (status o) StepOutputStatus.FAILED.

(** What one entry contributes to a first-match search: its own name when it
    is failed, else what the search inside it (for a loop with an output)
    finds. *)
Definition failingCandidate (inLoop : LoopStepResult -> option string)
           (entry : string * StepOutput) : option string :=
  if isFailed (snd entry) then Some (fst entry)
  else
    match snd entry with
    | LoopStepOutput _ (Some output) => inLoop output
    | _ => None
    end.

(** The search in which "the first failing step discovered wins": entries in
    mapping order, iterations in order, the earliest match kept. *)
Fixpoint firstFailingInLoop (r : LoopStepResult) : option string :=
  match r with
  | mkLoopStepResult its =>
      fold_right
        (fun iteration later =>
           nullish
             (fold_right
                (fun entry later' =>
                   nullish (failingCandidate firstFailingInLoop entry) later')
                None iteration)
             later)
        None its
  end.

Definition firstFailing (entries : StepOutputs) : option string :=
  fold_right
    (fun entry later => nullish (failingCandidate firstFailingInLoop entry) later)
    None entries.

(** The names of the entries of one level whose own status is FAILED, in
    mapping order, and the last of them. *)
Definition failedNames (entries : StepOutputs) : list string :=
  map fst (List.filter (fun entry => isFailed (snd entry)) entries).

Definition lastFailedEntry (entries : StepOutputs) : option string :=
  last (failedNames entries).

(** What [findFailedStepInLoop] finds inside an entry that is a loop record
    with an output. *)
Definition nestedFailure (entry : string * StepOutput) : option string :=
  match snd entry with
  | LoopStepOutput _ (Some output) => findFailedStepInLoop output
  | _ => None
  end.

Definition firstNonNull (candidates : list (option string)) : option string :=
  fold_right nullish None candidates.

(** The precedence rule of one level: the last entry that is itself FAILED,
    and when there is none, the first loop entry in which a failure is
    found. *)
Definition scanEntries (entries : StepOutputs) : option string :=
  match lastFailedEntry entries with
  | Some name => Some name
  | None => firstNonNull (map nestedFailure entries)
  end.

(** [Recorded entries name o]: the record [o] is stored under [name] in
    [entries] or in an iteration snapshot of a loop record of [entries], at
    any nesting depth. *)
Inductive Recorded : StepOutputs -> string -> StepOutput -> Prop :=
| Recorded_here entries name o :
    In (name, o) entries -> Recorded entries name o
| Recorded_nested entries loopName st output iteration name o :
    In (loopName, LoopStepOutput st (Some output)) entries ->
    In iteration (iterations output) ->
    Recorded iteration name o ->
    Recorded entries name o.

(** What the descent loop knows about its current record on a run that
    respects the typing of [loops]: the record respects it at every depth, and
    is a loop record as long as parents remain. *)
Definition childTyped (loops : list string) (rest : list Step)
           (childOutput : option StepOutput) : Prop :=
  match childOutput with
  | None => True
  | Some o =>
      loopsTyped loops o = true /\ (rest <> [] -> isLoopRecord o = true)
  end.

(** [nestedAll P o]: [P] holds of every iteration snapshot of [o], when [o]
    is a loop record with an output. *)
Definition nestedAll (P : StepOutputs -> Prop) (o : StepOutput) : Prop :=
  match o with
  | LoopStepOutput _ (Some output) => Forall P (iterations output)
  | _ => True
  end.

(** A non-null scan names a recorded FAILED step; a null scan means no
    recorded step is FAILED. *)
Definition scanSound (entries : StepOutputs) : Prop :=
  (forall name, scanEntries entries = Some name ->
                exists o, Recorded entries name o
                          /\ status o = StepOutputStatus.FAILED)
  /\ (scanEntries entries = None ->
      forall name o, Recorded entries name o ->
                     status o <> StepOutputStatus.FAILED).

(** The run's failed step, when the run has steps and one of them failed. *)
Definition failedStepOf (run : FlowRun) : option string :=
  match findFailedStep run with
  | Ok failedStep => failedStep
  | Throw => None
  end.

(** The reducer of [findLoopsState], for a given failed step. *)
Definition assignLoop (flowHelper : FlowHelper)
           (currentLoopsState : gmap string Z) (failedStep : option string)
           (res : gmap string Z) (step : Step) : gmap string Z :=
  <[ stepName step :=
       if isFailedStepParent flowHelper failedStep step
       then MAX_SAFE_INTEGER
       else default 0%Z (currentLoopsState !! stepName step) ]> res.

(** ** Sample flows and runs *)

Module Samples.

Definition succeeded (k : GenericKind) : StepOutput :=
  GenericStepOutput k StepOutputStatus.SUCCEEDED Opaque.
Definition failed (k : GenericKind) : StepOutput :=
  GenericStepOutput k StepOutputStatus.FAILED Falsy.
Definition loopRecord (its : list StepOutputs) : StepOutput :=
  LoopStepOutput StepOutputStatus.SUCCEEDED (Some (mkLoopStepResult its)).

(** trigger -> A -> L1 { L2 { step } } -> B *)
Definition innerLoop : Action :=
  LoopOnItemsAction "L2" (Some (CodeAction "step" None)) None.
Definition outerLoop : Action :=
  LoopOnItemsAction "L1" (Some innerLoop) (Some (PieceAction "B" None)).
Definition nestedTrigger : Trigger :=
  mkTrigger "trigger" TriggerType.PIECE (Some (CodeAction "A" (Some outerLoop))).

Definition stepAt2 : StepOutput :=
  GenericStepOutput CodeKind StepOutputStatus.PAUSED Opaque.
Definition nestedOutput : StepOutputs :=
  [ ("trigger", succeeded (TriggerKind TriggerType.PIECE));
    ("A", succeeded CodeKind);
    ("L1", loopRecord
             [ [ ("L2", loopRecord [ [ ("step", succeeded CodeKind) ];
                                     [ ("step", succeeded CodeKind) ];
                                     [ ("step", stepAt2) ] ]) ] ]) ].
Definition nestedIndexes : gmap string Z := <[ "L1" := 0%Z ]> {[ "L2" := 2%Z ]}.

(** trigger -> L { step }, with three recorded iterations of L *)
Definition singleLoop : Action :=
  LoopOnItemsAction "L" (Some (CodeAction "step" None)) None.
Definition singleTrigger : Trigger :=
  mkTrigger "trigger" TriggerType.EMPTY (Some singleLoop).
Definition threeIterations : StepOutput :=
  loopRecord [ [ ("step", succeeded CodeKind) ];
               [ ("step", stepAt2) ];
               [ ("step", succeeded CodeKind) ] ].
Definition singleOutput : StepOutputs :=
  [ ("trigger", succeeded (TriggerKind TriggerType.EMPTY));
    ("L", threeIterations) ].

(** A (top level, succeeded), B a loop whose iteration 2 holds the failed C *)
Definition failingTrigger : Trigger :=
  mkTrigger "trigger" TriggerType.EMPTY
            (Some (CodeAction "A"
                     (Some (LoopOnItemsAction "B" (Some (CodeAction "C" None))
                              (Some (LoopOnItemsAction "D" None None)))))).
Definition failingRun : FlowRun :=
  mkFlowRun
    (Some [ ("A", succeeded CodeKind);
            ("B", loopRecord [ [ ("C", succeeded CodeKind) ];
                               [ ("C", succeeded CodeKind) ];
                               [ ("C", failed CodeKind) ] ]) ]).

(** Two entries of one level that are both FAILED. *)
Definition twoFailures : StepOutputs :=
  [ ("A", failed CodeKind); ("B", failed PieceKind) ].

End Samples.

(** ** The guarded walk of the output locator, in the words of section 4.2 *)

(** [held?.output?.iterations[loopIndexes[loopName]]]: the iteration snapshot
    that the record held so far has at the caller's index for [loopName];
    there is none when nothing is held, when the held record has no output,
    and when the index is absent or out of range of its iterations. *)
Definition heldSnapshot (loopIndexes : gmap string Z) (loopName : string)
           (held : option StepOutput) : option StepOutputs :=
  match held with
  | Some r => snapshotOf loopIndexes loopName r
  | None => None
  end.

(** The key looked up in a snapshot: the name of the next enclosing loop when
    one follows, else the name of the step itself. *)
Definition descentKey (step : string) (rest : list Step) : string :=
  match rest with
  | next :: _ => stepName next
  | [] => step
  end.

(** [Held loopIndexes step held loops res]: walking the enclosing [loops] in
    root-to-target order from the record [held] ends on [res].  Each loop is
    one guarded step: when the held record has a snapshot at the index of the
    loop, the entry of that snapshot under the next key is held instead
    (an absent entry included); when it has none, the step is skipped and the
    held record is kept.  The result is what is held at the end. *)
Inductive Held (loopIndexes : gmap string Z) (step : string)
  : option StepOutput -> list Step -> option StepOutput -> Prop :=
| Held_end held :
    Held loopIndexes step held [] held
| Held_enter held L rest snapshot res :
    heldSnapshot loopIndexes (stepName L) held = Some snapshot ->
    Held loopIndexes step (lookupKey (descentKey step rest) snapshot) rest res ->
    Held loopIndexes step held (L :: rest) res
| Held_skip held L rest res :
    heldSnapshot loopIndexes (stepName L) held = None ->
    Held loopIndexes step held rest res ->
    Held loopIndexes step held (L :: rest) res.

(** ** Further notions used by the properties of the loop display state *)

(** The status of a run that bears the same name as a status of a step. *)
Definition runStatusOfStep (s : StepOutputStatus.t) : FlowRunStatus.t :=
  match s with
  | StepOutputStatus.FAILED => FlowRunStatus.FAILED
  | StepOutputStatus.PAUSED => FlowRunStatus.PAUSED
  | StepOutputStatus.RUNNING => FlowRunStatus.RUNNING
  | StepOutputStatus.STOPPED => FlowRunStatus.STOPPED
  | StepOutputStatus.SUCCEEDED => FlowRunStatus.SUCCEEDED
  end.

(** The index [findLoopsState] writes for one loop. *)
Definition loopIndexFor (flowHelper : FlowHelper)
           (currentLoopsState : gmap string Z) (failedStep : option string)
           (step : Step) : Z :=
  if isFailedStepParent flowHelper failedStep step
  then MAX_SAFE_INTEGER
  else default 0%Z (currentLoopsState !! stepName step).

(** The last of [loops] whose name is [key]: the one whose write survives in
    the object built by the reduction. *)
Definition lastLoopNamed (key : string) (loops : list Step) : option Step :=
  last (List.filter (fun l => String.eqb (stepName l) key) loops).

(** The loop nodes [findLoopsState] reduces over. *)
Definition loopsOf (flowHelper : FlowHelper) (flowVersion : FlowVersion)
  : list Step :=
  List.filter isLoopOnItems (getAllSteps flowHelper (trigger flowVersion)).

(** ** Project plan limits *)

Section TasksLimit.

(** The constant [MAXIMUM_ALLOWED_TASKS] and the function
    [flagService.isCloudPlatform] are declared outside the sources at hand;
    the two functions below are stated for any value of them.  A task limit is
    an integer of [Z], [undefined] is [None]. *)
Variable MAXIMUM_ALLOWED_TASKS : Z.
Variable isCloudPlatform : string -> bool.

Definition getTasksLimit (isCustomerPlatform : bool) (limit : option Z)
  : option Z :=
  if isCustomerPlatform then limit
  else Some (Z.min (default MAXIMUM_ALLOWED_TASKS limit) MAXIMUM_ALLOWED_TASKS).

Definition isCustomerPlatform (platformId : option string) : bool :=
  match platformId with
  | None => true
  | Some id => negb (isCloudPlatform id)
  end.

End TasksLimit.

(** * Properties *)

(** ** Arrays and objects *)

Lemma arrayAt_Some_range {A : Type} (arr : list A) (i : Z) (x : A) :
  arrayAt arr i = Some x -> (0 <= i < Z.of_nat (length arr))%Z.
Proof.
  revert i. induction arr as [|a arr IH]; intros i H; simpl in H.
  - discriminate.
  - destruct (Z.eqb_spec i 0) as [Hz|Hne].
    + simpl. lia.
    + apply IH in H. simpl. lia.
Qed.

Lemma arrayAt_outOfRange {A : Type} (arr : list A) (i : Z) :
  outOfRange arr i -> arrayAt arr i = None.
Proof.
  intros H. destruct (arrayAt arr i) eqn:E; [|reflexivity].
  apply arrayAt_Some_range in E. unfold outOfRange in H. lia.
Qed.

Lemma arrayAt_in_range {A : Type} (arr : list A) (i : Z) :
  (0 <= i < Z.of_nat (length arr))%Z -> exists x, arrayAt arr i = Some x.
Proof.
  revert i. induction arr as [|a arr IH]; intros i Hi; simpl in Hi |- *.
  - lia.
  - destruct (Z.eqb_spec i 0) as [Hz|Hne]; [eauto|].
    apply IH. lia.
Qed.

Lemma arrayAt_In {A : Type} (arr : list A) (i : Z) (x : A) :
  arrayAt arr i = Some x -> In x arr.
Proof.
  revert i. induction arr as [|a arr IH]; intros i H; simpl in H.
  - discriminate.
  - destruct (i =? 0)%Z.
    + injection H as Hx. left. exact Hx.
    + right. eauto.
Qed.

Lemma lookupKey_In {A : Type} (key : string) (obj : list (string * A)) (v : A) :
  lookupKey key obj = Some v -> In (key, v) obj.
Proof.
  induction obj as [|[k w] obj IH]; simpl; intros H.
  - discriminate.
  - destruct (String.eqb_spec key k) as [Hk|Hne].
    + injection H as Hv. left. congruence.
    + right. auto.
Qed.

(** ** Status icons *)

(** C8: every step-level status and every run-level status is mapped to a
    result whose variant is one of the three severity classes neutral
    (rendered ['default']), success and error. *)
Theorem status_icons_have_a_severity :
  (forall s : StepOutputStatus.t,
      exists c, severityOfVariant (variant (getStatusIconForStep s)) = Some c)
  /\ (forall s : FlowRunStatus.t,
      exists c, severityOfVariant (variant (getStatusIcon s)) = Some c).
Proof.
  split; intros s; destruct s; simpl; eauto.
Qed.

(** The table itself, status by status. *)
Lemma step_status_severity (s : StepOutputStatus.t) :
  severityOfVariant (variant (getStatusIconForStep s)) =
  Some match s with
       | StepOutputStatus.RUNNING | StepOutputStatus.PAUSED => neutral
       | StepOutputStatus.STOPPED | StepOutputStatus.SUCCEEDED => success
       | StepOutputStatus.FAILED => error
       end.
Proof. now destruct s. Qed.

Lemma run_status_severity (s : FlowRunStatus.t) :
  severityOfVariant (variant (getStatusIcon s)) =
  Some match s with
       | FlowRunStatus.RUNNING | FlowRunStatus.PAUSED => neutral
       | FlowRunStatus.SUCCEEDED | FlowRunStatus.STOPPED => success
       | FlowRunStatus.FAILED | FlowRunStatus.QUOTA_EXCEEDED
       | FlowRunStatus.INTERNAL_ERROR | FlowRunStatus.TIMEOUT => error
       end.
Proof. now destruct s. Qed.

(** ** Output locator: the direct and the not-found paths *)

(** C6: a step name that is a key of the run's output mapping is answered by
    the stored record itself, whatever the loop indexes, the trigger and the
    path resolver are. *)
Theorem extractStepOutput_direct_key
        (fh : FlowHelper) (name : string) (loopIndexes : gmap string Z)
        (output : StepOutputs) (trig : Trigger) (r : StepOutput) :
  lookupKey name output = Some r ->
  extractStepOutput fh name loopIndexes output trig = Ok (Some r).
Proof.
  intros Hkey. unfold extractStepOutput. now rewrite Hkey.
Qed.

Lemma extractStepOutput_direct_key_witness :
  extractStepOutput SpecFlowHelper.flowHelper "A" Samples.nestedIndexes
                    Samples.nestedOutput Samples.nestedTrigger
  = Ok (Some (Samples.succeeded CodeKind)).
Proof.
  apply extractStepOutput_direct_key. reflexivity.
Defined.

(** C7: when the step is not a key of the output mapping and the path
    resolver signals not-found, the result is undefined, and nothing is
    raised. *)
Theorem extractStepOutput_not_found
        (fh : FlowHelper) (name : string) (loopIndexes : gmap string Z)
        (output : StepOutputs) (trig : Trigger) :
  lookupKey name output = None ->
  findPathToStep fh trig name = None ->
  extractStepOutput fh name loopIndexes output trig = Ok None.
Proof.
  intros Hkey Hpath. unfold extractStepOutput. now rewrite Hkey, Hpath.
Qed.

Lemma extractStepOutput_not_found_witness :
  extractStepOutput SpecFlowHelper.flowHelper "ghost" Samples.nestedIndexes
                    Samples.nestedOutput Samples.nestedTrigger
  = Ok None.
Proof.
  apply extractStepOutput_not_found; reflexivity.
Defined.

(** C9: when the step is not a key of the output mapping and the path
    resolver returns a path without any loop node, the descent helper gets an
    empty list of parents and the result is undefined. *)
Theorem extractStepOutput_no_loop_ancestor
        (fh : FlowHelper) (name : string) (loopIndexes : gmap string Z)
        (output : StepOutputs) (trig : Trigger) (path : list Step) :
  lookupKey name output = None ->
  findPathToStep fh trig name = Some path ->
  List.filter isLoopOnItems path = [] ->
  extractStepOutput fh name loopIndexes output trig = Ok None.
Proof.
  intros Hkey Hpath Hloops. unfold extractStepOutput.
  rewrite Hkey, Hpath, Hloops. reflexivity.
Qed.

Lemma extractStepOutput_no_loop_ancestor_witness :
  findPathToStep SpecFlowHelper.flowHelper Samples.nestedTrigger "B" = Some []
  /\ extractStepOutput SpecFlowHelper.flowHelper "B" Samples.nestedIndexes
                       Samples.nestedOutput Samples.nestedTrigger
     = Ok None.
Proof.
  split; [reflexivity|].
  apply (extractStepOutput_no_loop_ancestor _ _ _ _ _ []); reflexivity.
Defined.

(** ** Output locator: the descent through loop iterations *)

Section Descent.

Variable loopIndexes : gmap string Z.
Variable childName : string.

Lemma descendLoops_cons (parent : Step) (rest : list Step)
      (childOutput : option StepOutput) :
  descendLoops loopIndexes childName (parent :: rest) childOutput =
  match iterationSnapshot loopIndexes (stepName parent) childOutput with
  | Throw => Throw
  | Ok None => descendLoops loopIndexes childName rest childOutput
  | Ok (Some snapshot) =>
      descendLoops loopIndexes childName rest
        (lookupKey (match rest with
                    | next :: _ => stepName next
                    | [] => childName
                    end) snapshot)
  end.
Proof. reflexivity. Qed.

(** The guard of the loop holds exactly when the addressed snapshot
    exists. *)
Lemma iterationSnapshot_snapshotOf (loopName : string) (r : StepOutput)
      (snapshot : StepOutputs) :
  snapshotOf loopIndexes loopName r = Some snapshot ->
  iterationSnapshot loopIndexes loopName (Some r) = Ok (Some snapshot).
Proof.
  destruct r as [k s u|s [output|]]; simpl; try discriminate.
  destruct (loopIndexes !! loopName); [|discriminate].
  intros H. now rewrite H.
Qed.

(** A record without an addressed snapshot is skipped, unless reading it
    raises. *)
Lemma iterationSnapshot_loop_stale (loopName : string)
      (st : StepOutputStatus.t) (output : option LoopStepResult) :
  match output with
  | None => True
  | Some o => staleIndex loopIndexes loopName o
  end ->
  iterationSnapshot loopIndexes loopName (Some (LoopStepOutput st output))
  = Ok None.
Proof.
  destruct output as [o|]; simpl; [|reflexivity].
  unfold staleIndex. destruct (loopIndexes !! loopName) as [i|]; [|reflexivity].
  intros H. now rewrite (arrayAt_outOfRange _ _ H).
Qed.

(** Nothing is ever read from an absent record. *)
Lemma descendLoops_absent (parents : list Step) :
  descendLoops loopIndexes childName parents None = Ok None.
Proof.
  induction parents as [|p rest IH]; [reflexivity|].
  rewrite descendLoops_cons. simpl. exact IH.
Qed.

(** When every addressed snapshot exists the loop follows the descent of
    the specification. *)
Lemma descendLoops_addressed (inner : list Step) :
  forall (L : Step) (r : StepOutput) (res : option StepOutput),
    addressedRecord loopIndexes childName r L inner = Some res ->
    descendLoops loopIndexes childName (L :: inner) (Some r) = Ok res.
Proof.
  induction inner as [|L' inner IH]; intros L r res H;
    rewrite descendLoops_cons; simpl in H;
    destruct (snapshotOf loopIndexes (stepName L) r) as [snapshot|] eqn:Hsnap;
    try discriminate;
    rewrite (iterationSnapshot_snapshotOf _ _ _ Hsnap).
  - injection H as <-. reflexivity.
  - destruct (lookupKey (stepName L') snapshot) as [r'|]; [|discriminate].
    now apply IH.
Qed.

(** *** No exception on runs that respect the typing of loops *)

Variable loops : list string.

Lemma entryTyped_lookup (snapshot : StepOutputs) (key : string)
      (v : StepOutput) :
  forallb (entryTyped loops (loopsTyped loops)) snapshot = true ->
  lookupKey key snapshot = Some v ->
  loopsTyped loops v = true /\ (In key loops -> isLoopRecord v = true).
Proof.
  intros Hall Hkey. apply lookupKey_In in Hkey.
  rewrite forallb_forall in Hall. specialize (Hall _ Hkey).
  unfold entryTyped in Hall. simpl in Hall.
  apply andb_true_iff in Hall as [Himp Hdeep]. split; [exact Hdeep|].
  intros Hin.
  assert (Hex : existsb (String.eqb key) loops = true).
  { apply existsb_exists. exists key. split; [exact Hin|apply String.eqb_refl]. }
  now rewrite Hex in Himp.
Qed.

Lemma descendLoops_no_throw (rest : list Step) :
  forall childOutput : option StepOutput,
    (forall p, In p rest -> In (stepName p) loops) ->
    childTyped loops rest childOutput ->
    descendLoops loopIndexes childName rest childOutput <> Throw.
Proof.
  induction rest as [|p rest IH]; intros co Hnames Hco; [discriminate|].
  assert (Hrest : forall q, In q rest -> In (stepName q) loops)
    by (intros q Hq; apply Hnames; now right).
  assert (Hweaken : childTyped loops rest co).
  { destruct co as [o|]; [|exact I]. destruct Hco as [Hdeep Hloop].
    split; [exact Hdeep|]. intros _. apply Hloop. discriminate. }
  rewrite descendLoops_cons.
  destruct co as [o|]; [|simpl; now apply IH].
  destruct Hco as [Hdeep Hloop].
  destruct o as [k s u|st [[its]|]];
    [specialize (Hloop ltac:(discriminate)); discriminate| |simpl; now apply IH].
  simpl. destruct (loopIndexes !! stepName p) as [i|]; [|now apply IH].
  destruct (arrayAt its i) as [snapshot|] eqn:Hat; [|now apply IH].
  apply IH; [exact Hrest|].
  apply arrayAt_In in Hat. simpl in Hdeep.
  rewrite forallb_forall in Hdeep. specialize (Hdeep _ Hat).
  unfold childTyped.
  destruct (lookupKey _ snapshot) as [v|] eqn:Hkey; [|exact I].
  destruct (entryTyped_lookup _ _ _ Hdeep Hkey) as [Hv Hvloop].
  split; [exact Hv|]. intros Hne. apply Hvloop.
  destruct rest as [|next rest']; [now elim Hne|].
  apply Hrest. now left.
Qed.

End Descent.

(** C1: for a step that is not a key of the output mapping and is nested under
    the loops [L :: inner] (root-to-target order), when every addressed
    iteration snapshot exists, [extractStepOutput] returns the record reached
    by [runSteps[L].output.iterations[loopIndexes[L]][L2]...[step]]. *)
Theorem extractStepOutput_nested_descent
        (fh : FlowHelper) (step : string) (loopIndexes : gmap string Z)
        (output : StepOutputs) (trig : Trigger) (path : list Step)
        (L : Step) (inner : list Step) (r : StepOutput)
        (res : option StepOutput) :
  lookupKey step output = None ->
  findPathToStep fh trig step = Some path ->
  List.filter isLoopOnItems path = L :: inner ->
  lookupKey (stepName L) output = Some r ->
  addressedRecord loopIndexes step r L inner = Some res ->
  extractStepOutput fh step loopIndexes output trig = Ok res.
Proof.
  intros Hkey Hpath Hloops Hfirst Haddr. unfold extractStepOutput.
  rewrite Hkey, Hpath, Hloops. unfold getLoopChildStepOutput.
  rewrite Hfirst. now apply descendLoops_addressed.
Qed.

(** The two-level case, with indexes [{L1: 0, L2: 2}]. *)
Lemma extractStepOutput_nested_descent_witness :
  extractStepOutput SpecFlowHelper.flowHelper "step" Samples.nestedIndexes
                    Samples.nestedOutput Samples.nestedTrigger
  = Ok (Some Samples.stepAt2).
Proof.
  apply (extractStepOutput_nested_descent
           _ _ _ _ _
           [ActionStep Samples.outerLoop; ActionStep Samples.innerLoop]
           (ActionStep Samples.outerLoop) [ActionStep Samples.innerLoop]
           (Samples.loopRecord
              [ [ ("L2", Samples.loopRecord
                           [ [ ("step", Samples.succeeded CodeKind) ];
                             [ ("step", Samples.succeeded CodeKind) ];
                             [ ("step", Samples.stepAt2) ] ]) ] ]));
    reflexivity.
Defined.

(** The same case spelled out: the result is
    [runSteps[L1].output.iterations[0][L2].output.iterations[2][step]]. *)
Lemma extractStepOutput_two_levels
      (fh : FlowHelper) (step : string) (loopIndexes : gmap string Z)
      (output : StepOutputs) (trig : Trigger) (path : list Step)
      (L1 L2 : Step) (st1 st2 : StepOutputStatus.t)
      (out1 out2 : LoopStepResult) (snapshot0 snapshot2 : StepOutputs) :
  lookupKey step output = None ->
  findPathToStep fh trig step = Some path ->
  List.filter isLoopOnItems path = [L1; L2] ->
  loopIndexes !! stepName L1 = Some 0%Z ->
  loopIndexes !! stepName L2 = Some 2%Z ->
  lookupKey (stepName L1) output = Some (LoopStepOutput st1 (Some out1)) ->
  arrayAt (iterations out1) 0 = Some snapshot0 ->
  lookupKey (stepName L2) snapshot0 = Some (LoopStepOutput st2 (Some out2)) ->
  arrayAt (iterations out2) 2 = Some snapshot2 ->
  extractStepOutput fh step loopIndexes output trig
  = Ok (lookupKey step snapshot2).
Proof.
  intros Hkey Hpath Hloops Hi1 Hi2 Hr1 Hs0 Hr2 Hs2. unfold extractStepOutput.
  rewrite Hkey, Hpath, Hloops. unfold getLoopChildStepOutput. rewrite Hr1.
  apply descendLoops_addressed. simpl.
  rewrite Hi1, Hs0, Hr2. simpl. now rewrite Hi2, Hs2.
Qed.

(** C2, as stated, fails: for a step in one loop [L] with 3 recorded
    iterations, requesting index 5 returns the record of [L] itself. *)
Lemma extractStepOutput_stale_index_counterexample :
  lookupKey "step" Samples.singleOutput = None
  /\ findPathToStep SpecFlowHelper.flowHelper Samples.singleTrigger "step"
     = Some [ActionStep Samples.singleLoop]
  /\ lookupKey "L" Samples.singleOutput = Some Samples.threeIterations
  /\ extractStepOutput SpecFlowHelper.flowHelper "step" {[ "L" := 5%Z ]}
                       Samples.singleOutput Samples.singleTrigger
     = Ok (Some Samples.threeIterations)
  /\ extractStepOutput SpecFlowHelper.flowHelper "step" {[ "L" := 5%Z ]}
                       Samples.singleOutput Samples.singleTrigger
     <> Ok None.
Proof.
  repeat split; try reflexivity. vm_compute. discriminate.
Qed.

(** *** The walk of the source and the guarded walk of section 4.2 *)

(** What the guard of the loop finds, when reading it raises nothing, is the
    snapshot of the held record. *)
Lemma iterationSnapshot_held (loopIndexes : gmap string Z) (loopName : string)
      (childOutput : option StepOutput) (found : option StepOutputs) :
  iterationSnapshot loopIndexes loopName childOutput = Ok found ->
  heldSnapshot loopIndexes loopName childOutput = found.
Proof.
  destruct childOutput as [[k s [|]|st [output|]]|]; simpl;
    try discriminate; try (now intros [= <-]).
  destruct (loopIndexes !! loopName); now intros [= <-].
Qed.

Lemma descendLoops_Held (loopIndexes : gmap string Z) (step : string)
      (parents : list Step) :
  forall (childOutput res : option StepOutput),
    descendLoops loopIndexes step parents childOutput = Ok res ->
    Held loopIndexes step childOutput parents res.
Proof.
  induction parents as [|p rest IH]; intros co res Hres.
  - simpl in Hres. injection Hres as <-. constructor.
  - rewrite descendLoops_cons in Hres.
    destruct (iterationSnapshot loopIndexes (stepName p) co)
      as [[snapshot|]|] eqn:Hsnap; [| |discriminate];
      apply iterationSnapshot_held in Hsnap.
    + eapply Held_enter; [exact Hsnap|]. now apply IH.
    + apply Held_skip; [exact Hsnap|]. now apply IH.
Qed.

Lemma Held_deterministic (loopIndexes : gmap string Z) (step : string)
      (held : option StepOutput) (loops : list Step)
      (res1 res2 : option StepOutput) :
  Held loopIndexes step held loops res1 ->
  Held loopIndexes step held loops res2 ->
  res1 = res2.
Proof.
  intros H1. revert res2.
  induction H1 as [held|held L rest snapshot res Hsnap H1 IH
                   |held L rest res Hsnap H1 IH];
    intros res2 H2; inversion H2; subst; try congruence.
  - apply IH. congruence.
  - now apply IH.
Qed.

(** A loop record none of whose iterations is addressed by the index of any
    remaining parent is kept to the end. *)
Lemma descendLoops_all_stale (loopIndexes : gmap string Z) (step : string)
      (st : StepOutputStatus.t) (out : option LoopStepResult)
      (parents : list Step) :
  (forall p, In p parents ->
             match out with
             | None => True
             | Some o => staleIndex loopIndexes (stepName p) o
             end) ->
  descendLoops loopIndexes step parents (Some (LoopStepOutput st out))
  = Ok (Some (LoopStepOutput st out)).
Proof.
  induction parents as [|p rest IH]; intros Hstale; [reflexivity|].
  rewrite descendLoops_cons, iterationSnapshot_loop_stale.
  - apply IH. intros q Hq. apply Hstale. now right.
  - apply Hstale. now left.
Qed.

(** C2, amended: for a step that is not a key of the output mapping and is
    nested under the loops [L :: inner], [extractStepOutput] raises nothing
    when the run respects the typing of loops; it returns undefined when the
    outermost loop has no record; when the record of the outermost loop
    exists and no iteration of it is addressed by the index of any enclosing
    loop (the record has no output, or each index is absent or out of range),
    it returns that record itself, not undefined; and in general its result
    is the one of the guarded walk of section 4.2, in which a loop whose
    snapshot is missing is skipped and the record held so far is kept. *)
Theorem extractStepOutput_missing_iteration
        (fh : FlowHelper) (step : string) (loopIndexes : gmap string Z)
        (output : StepOutputs) (trig : Trigger) (path : list Step)
        (L : Step) (inner : list Step) :
  lookupKey step output = None ->
  findPathToStep fh trig step = Some path ->
  List.filter isLoopOnItems path = L :: inner ->
  (runTyped (map stepName (L :: inner)) output = true ->
   extractStepOutput fh step loopIndexes output trig <> Throw)
  /\ (lookupKey (stepName L) output = None ->
      extractStepOutput fh step loopIndexes output trig = Ok None)
  /\ (forall (st : StepOutputStatus.t) (out : option LoopStepResult),
         lookupKey (stepName L) output = Some (LoopStepOutput st out) ->
         (forall p, In p (L :: inner) ->
                    match out with
                    | None => True
                    | Some o => staleIndex loopIndexes (stepName p) o
                    end) ->
         extractStepOutput fh step loopIndexes output trig
         = Ok (Some (LoopStepOutput st out)))
  /\ (runTyped (map stepName (L :: inner)) output = true ->
      forall res : option StepOutput,
        extractStepOutput fh step loopIndexes output trig = Ok res <->
        Held loopIndexes step (lookupKey (stepName L) output) (L :: inner) res).
Proof.
  intros Hkey Hpath Hloops. unfold extractStepOutput.
  rewrite Hkey, Hpath, Hloops. unfold getLoopChildStepOutput.
  assert (Hno_throw :
            runTyped (map stepName (L :: inner)) output = true ->
            descendLoops loopIndexes step (L :: inner)
                         (lookupKey (stepName L) output) <> Throw).
  { intros Htyped.
    apply (descendLoops_no_throw _ _ (map stepName (L :: inner))).
    - intros p Hp. now apply in_map.
    - unfold childTyped.
      destruct (lookupKey (stepName L) output) as [r|] eqn:Hr; [|exact I].
      destruct (entryTyped_lookup _ _ _ _ Htyped Hr) as [Hdeep Hloop].
      split; [exact Hdeep|]. intros _. apply Hloop. now left. }
  split; [exact Hno_throw|]. split; [|split].
  - intros Hnone. rewrite Hnone. apply descendLoops_absent.
  - intros st out Hr Hstale. rewrite Hr. now apply descendLoops_all_stale.
  - intros Htyped res. split; [apply descendLoops_Held|].
    intros Hheld.
    destruct (descendLoops loopIndexes step (L :: inner)
                           (lookupKey (stepName L) output))
      as [res'|] eqn:Hres; [|elim (Hno_throw Htyped eq_refl)].
    f_equal. apply descendLoops_Held in Hres.
    exact (Held_deterministic _ _ _ _ _ _ Hres Hheld).
Qed.

(** Two enclosing loops, both indexes out of range: the record of the outer
    loop is returned. *)
Lemma extractStepOutput_missing_iteration_witness :
  extractStepOutput SpecFlowHelper.flowHelper "step"
                    (<[ "L1" := 99%Z ]> {[ "L2" := 99%Z ]})
                    Samples.nestedOutput Samples.nestedTrigger <> Throw
  /\ exists its,
      lookupKey "L1" Samples.nestedOutput = Some (Samples.loopRecord its)
      /\ extractStepOutput SpecFlowHelper.flowHelper "step"
                           (<[ "L1" := 99%Z ]> {[ "L2" := 99%Z ]})
                           Samples.nestedOutput Samples.nestedTrigger
         = Ok (Some (Samples.loopRecord its))
      /\ Held (<[ "L1" := 99%Z ]> {[ "L2" := 99%Z ]}) "step"
              (Some (Samples.loopRecord its))
              [ActionStep Samples.outerLoop; ActionStep Samples.innerLoop]
              (Some (Samples.loopRecord its)).
Proof.
  destruct (extractStepOutput_missing_iteration
              SpecFlowHelper.flowHelper "step"
              (<[ "L1" := 99%Z ]> {[ "L2" := 99%Z ]})
              Samples.nestedOutput Samples.nestedTrigger
              [ActionStep Samples.outerLoop; ActionStep Samples.innerLoop]
              (ActionStep Samples.outerLoop) [ActionStep Samples.innerLoop])
    as [Hno_throw [_ [Hstale Hwalk]]]; try reflexivity.
  split; [apply Hno_throw; reflexivity|].
  eexists. split; [reflexivity|].
  assert (Hres : extractStepOutput SpecFlowHelper.flowHelper "step"
                   (<[ "L1" := 99%Z ]> {[ "L2" := 99%Z ]})
                   Samples.nestedOutput Samples.nestedTrigger
                 = Ok (Some (Samples.loopRecord
                               [ [ ("L2", Samples.loopRecord
                                            [ [ ("step", Samples.succeeded CodeKind) ];
                                              [ ("step", Samples.succeeded CodeKind) ];
                                              [ ("step", Samples.stepAt2) ] ]) ] ]))).
  { apply Hstale; [reflexivity|].
    intros p [<-|[<-|[]]]; vm_compute; right; discriminate. }
  split; [exact Hres|].
  apply (Hwalk eq_refl) in Hres. exact Hres.
Defined.

(** An inner index out of range after a descent that succeeded: the record
    of the inner loop, reached in iteration 0 of the outer one, is kept. *)
Example extractStepOutput_inner_index_out_of_range :
  exists its,
    extractStepOutput SpecFlowHelper.flowHelper "step"
                      (<[ "L1" := 0%Z ]> {[ "L2" := 99%Z ]})
                      Samples.nestedOutput Samples.nestedTrigger
    = Ok (Some (Samples.loopRecord its))
    /\ length its = 3.
Proof. eexists. split; reflexivity. Qed.

(** ** Failure finder: precedence *)

Lemma lastFailedEntry_cons (entry : string * StepOutput) (rest : StepOutputs) :
  lastFailedEntry (entry :: rest) =
  match lastFailedEntry rest with
  | Some name => Some name
  | None => if isFailed (snd entry) then Some (fst entry) else None
  end.
Proof.
  unfold lastFailedEntry, failedNames. simpl.
  destruct (isFailed (snd entry)); simpl.
  - apply last_cons.
  - now destruct (last _).
Qed.

(** The reduction over the entries of one level, from any accumulator. *)
Lemma fold_failedStepReducer (entries : StepOutputs) :
  forall res : option string,
    fold_left (failedStepReducer findFailedStepInLoop) entries res =
    match lastFailedEntry entries with
    | Some name => Some name
    | None => nullish res (firstNonNull (map nestedFailure entries))
    end.
Proof.
  induction entries as [|[name step] rest IH]; intros res.
  - simpl. now destruct res.
  - simpl fold_left. rewrite IH, lastFailedEntry_cons.
    destruct (lastFailedEntry rest) as [later|]; [reflexivity|].
    unfold failedStepReducer, nestedFailure at 2, isFailed. simpl.
    destruct (StepOutputStatus.eqb (status step) StepOutputStatus.FAILED);
      [reflexivity|].
    destruct step as [k s u|s [output|]]; simpl; try now destruct res.
Qed.

Lemma fold_entries_scanEntries (entries : StepOutputs) :
  fold_left (failedStepReducer findFailedStepInLoop) entries None
  = scanEntries entries.
Proof.
  rewrite fold_failedStepReducer. reflexivity.
Qed.

(** The reduction over the iterations of a loop, from any accumulator. *)
Lemma fold_iterations (its : list StepOutputs) :
  forall res : option string,
    fold_left
      (fun res iteration =>
         nullish res
                 (fold_left (failedStepReducer findFailedStepInLoop)
                            iteration None))
      its res
    = nullish res (firstNonNull (map scanEntries its)).
Proof.
  induction its as [|it its IH]; intros res; simpl.
  - now destruct res.
  - rewrite IH, fold_entries_scanEntries. now destruct res.
Qed.

Lemma findFailedStepInLoop_iterations (r : LoopStepResult) :
  findFailedStepInLoop r = firstNonNull (map scanEntries (iterations r)).
Proof.
  destruct r as [its]. simpl. apply (fold_iterations its None).
Qed.

Lemma firstNonNull_Some (candidates : list (option string)) (name : string) :
  firstNonNull candidates = Some name -> In (Some name) candidates.
Proof.
  induction candidates as [|[c|] rest IH]; simpl; intros H.
  - discriminate.
  - left. exact H.
  - right. auto.
Qed.

Lemma firstNonNull_None (candidates : list (option string)) :
  firstNonNull candidates = None ->
  forall c, In c candidates -> c = None.
Proof.
  induction candidates as [|[c|] rest IH]; simpl; intros H c' Hin.
  - contradiction.
  - discriminate.
  - destruct Hin as [<-|Hin]; auto.
Qed.

(** C3, as stated, fails: with two FAILED entries at one level the first
    failing step in mapping order is [A], and [findFailedStep] returns [B]. *)
Lemma findFailedStep_first_failing_counterexample :
  firstFailing Samples.twoFailures = Some "A"
  /\ findFailedStep (mkFlowRun (Some Samples.twoFailures)) = Ok (Some "B")
  /\ findFailedStep (mkFlowRun (Some Samples.twoFailures))
     <> Ok (firstFailing Samples.twoFailures).
Proof.
  repeat split. vm_compute. discriminate.
Qed.

(** C3, amended: [findFailedStep] scans the entries of the run in mapping
    order; an entry that is itself FAILED always becomes the result, so the
    last such entry of a level wins; when no entry of the level is itself
    FAILED, the first loop entry in which a failure is found wins, a loop
    being searched only while nothing has been found among earlier siblings;
    within a loop, iterations are combined in order and the earliest iteration
    with a non-null result wins, never replaced by a later one. *)
Theorem findFailedStep_precedence :
  (forall entries : StepOutputs,
      findFailedStep (mkFlowRun (Some entries)) = Ok (scanEntries entries))
  /\ (forall r : LoopStepResult,
         findFailedStepInLoop r
         = firstNonNull (map scanEntries (iterations r))).
Proof.
  split.
  - intros entries. unfold findFailedStep. simpl.
    now rewrite fold_entries_scanEntries.
  - exact findFailedStepInLoop_iterations.
Qed.

(** ** Failure finder: what a result means *)

(** Induction over a mapping of step outputs and the iteration snapshots
    nested in its loop records. *)
Section NestedInduction.

Variable P : StepOutputs -> Prop.

Hypothesis Hstep :
forall entries : StepOutputs,
  Forall (fun entry => nestedAll P (snd entry)) entries -> P entries.

Lemma nestedAll_holds : forall o : StepOutput, nestedAll P o.
Proof.
exact
  (fix holds (o : StepOutput) : nestedAll P o :=
     match o as o' return nestedAll P o' with
     | GenericStepOutput _ _ _ => I
     | LoopStepOutput s out =>
         match out as out' return nestedAll P (LoopStepOutput s out') with
         | None => I
         | Some r =>
             match r as r'
                   return nestedAll P (LoopStepOutput s (Some r')) with
             | mkLoopStepResult its =>
                 (fix all_iterations (l : list StepOutputs) : Forall P l :=
                    match l with
                    | [] => @List.Forall_nil _ _
                    | it :: l' =>
                        @List.Forall_cons _ _ it _
                          (Hstep it
                             ((fix all_entries (es : StepOutputs)
                                : Forall (fun entry => nestedAll P (snd entry))
                                         es :=
                                 match es with
                                 | [] => @List.Forall_nil _ _
                                 | (k, v) :: es' =>
                                     @List.Forall_cons _ _ (k, v) _ (holds v)
                                                       (all_entries es')
                                 end) it))
                          (all_iterations l')
                    end) its
             end
         end
     end).
Qed.

Lemma StepOutputs_nested_ind (entries : StepOutputs) : P entries.
Proof.
apply Hstep. apply List.Forall_forall. intros [k v] _. apply nestedAll_holds.
Qed.

End NestedInduction.

Lemma lastFailedEntry_Some (entries : StepOutputs) (name : string) :
  lastFailedEntry entries = Some name ->
  exists o, In (name, o) entries /\ isFailed o = true.
Proof.
  unfold lastFailedEntry, failedNames. intros Hlast.
  assert (Hin : In name
                   (map fst (List.filter (fun entry => isFailed (snd entry))
                                         entries))).
  { apply last_Some in Hlast as [l' Heq]. rewrite Heq.
    apply in_or_app. right. now left. }
  apply in_map_iff in Hin as [[k o] [Hk Hin]]. simpl in Hk. subst k.
  apply filter_In in Hin as [Hin Hfailed]. eauto.
Qed.

Lemma lastFailedEntry_None (entries : StepOutputs) :
  lastFailedEntry entries = None ->
  forall name o, In (name, o) entries -> isFailed o = false.
Proof.
  unfold lastFailedEntry, failedNames. intros Hlast name o Hin.
  apply last_None in Hlast.
  destruct (isFailed o) eqn:Hfailed; [|reflexivity].
  assert (Hmem : In (name, o)
                    (List.filter (fun entry => isFailed (snd entry)) entries))
    by (apply filter_In; auto).
  apply (in_map fst) in Hmem. rewrite Hlast in Hmem. contradiction.
Qed.

Lemma isFailed_status (o : StepOutput) :
  isFailed o = true <-> status o = StepOutputStatus.FAILED.
Proof.
  unfold isFailed. destruct (status o); simpl; split; congruence.
Qed.

Lemma scanEntries_sound (entries : StepOutputs) : scanSound entries.
Proof.
  induction entries as [entries IH] using StepOutputs_nested_ind.
  rewrite List.Forall_forall in IH. unfold scanSound, scanEntries.
  destruct (lastFailedEntry entries) as [found|] eqn:Hlast.
  - split; [|discriminate].
    intros name [= <-].
    destruct (lastFailedEntry_Some _ _ Hlast) as [o [Hin Hfailed]].
    exists o. split; [now apply Recorded_here|now apply isFailed_status].
  - pose proof (lastFailedEntry_None _ Hlast) as Hnone. split.
    + intros name Hfirst. apply firstNonNull_Some in Hfirst.
      apply in_map_iff in Hfirst as [[loopName step] [Hnested Hin]].
      unfold nestedFailure in Hnested. simpl in Hnested.
      destruct step as [k s u|st [output|]]; try discriminate.
      rewrite findFailedStepInLoop_iterations in Hnested.
      apply firstNonNull_Some in Hnested.
      apply in_map_iff in Hnested as [it [Hscan Hit]].
      specialize (IH _ Hin). simpl in IH. rewrite List.Forall_forall in IH.
      destruct (IH _ Hit) as [Hsome _].
      destruct (Hsome _ Hscan) as [o [Hrec Hfailed]].
      exists o. split; [|exact Hfailed].
      eapply Recorded_nested; eauto.
    + intros Hfirst name o Hrec Hfailed.
      inversion Hrec as [es n o' Hin|es loopName st output it n o' Hin Hit Hdeep];
        subst.
      * apply isFailed_status in Hfailed.
        rewrite (Hnone _ _ Hin) in Hfailed. discriminate.
      * assert (Hnested : nestedFailure (loopName, LoopStepOutput st (Some output))
                          = None).
        { apply (firstNonNull_None _ Hfirst). now apply in_map. }
        unfold nestedFailure in Hnested. simpl in Hnested.
        rewrite findFailedStepInLoop_iterations in Hnested.
        assert (Hscan : scanEntries it = None).
        { apply (firstNonNull_None _ Hnested). now apply in_map. }
        specialize (IH _ Hin). simpl in IH. rewrite List.Forall_forall in IH.
        destruct (IH _ Hit) as [_ Hnull].
        exact (Hnull Hscan _ _ Hdeep Hfailed).
Qed.

(** C4: [findFailedStep] returns null exactly when no record, at the top
    level or in any iteration snapshot at any depth, has status FAILED; and a
    name it returns is the name of a recorded step whose status is FAILED. *)
Theorem findFailedStep_null_iff_no_failure (entries : StepOutputs) :
  (findFailedStep (mkFlowRun (Some entries)) = Ok None <->
   forall name o, Recorded entries name o ->
                  status o <> StepOutputStatus.FAILED)
  /\ (forall name,
         findFailedStep (mkFlowRun (Some entries)) = Ok (Some name) ->
         exists o, Recorded entries name o
                   /\ status o = StepOutputStatus.FAILED).
Proof.
  unfold findFailedStep. simpl. rewrite fold_entries_scanEntries.
  destruct (scanEntries_sound entries) as [Hsome Hnull].
  split; [split|].
  - intros [= Hscan]. now apply Hnull.
  - intros Hclean. destruct (scanEntries entries) as [name|]; [|reflexivity].
    destruct (Hsome name eq_refl) as [o [Hrec Hfailed]].
    elim (Hclean _ _ Hrec Hfailed).
  - intros name [= Hscan]. now apply Hsome.
Qed.

(** ** Worked examples *)

(** Section 8, property 2: for a step in one loop with three iterations,
    index 1 addresses [runSteps[L].output.iterations[1][step]]. *)
Example extractStepOutput_single_loop_index_1 :
  extractStepOutput SpecFlowHelper.flowHelper "step" {[ "L" := 1%Z ]}
                    Samples.singleOutput Samples.singleTrigger
  = Ok (Some Samples.stepAt2).
Proof. reflexivity. Qed.

(** An index absent from [loopIndexes] behaves as one out of range. *)
Example extractStepOutput_single_loop_no_index :
  extractStepOutput SpecFlowHelper.flowHelper "step" ∅
                    Samples.singleOutput Samples.singleTrigger
  = Ok (Some Samples.threeIterations).
Proof. reflexivity. Qed.

(** A loop that never executed has no record, and neither has its step. *)
Example extractStepOutput_single_loop_never_executed :
  extractStepOutput SpecFlowHelper.flowHelper "step" {[ "L" := 0%Z ]}
                    [ ("trigger", Samples.succeeded (TriggerKind TriggerType.EMPTY)) ]
                    Samples.singleTrigger
  = Ok None.
Proof. reflexivity. Qed.

(** Section 8, property 6: nothing failed in the run. *)
Example findFailedStep_nothing_failed :
  findFailedStep (mkFlowRun (Some Samples.nestedOutput)) = Ok None.
Proof. reflexivity. Qed.

(** Section 8, property 5: A succeeded, B is a loop whose iteration 2 holds
    the failed C. *)
Example findFailedStep_failingRun :
  findFailedStep Samples.failingRun = Ok (Some "C").
Proof. reflexivity. Qed.

(** ** Loop display state *)

Section LoopsState.

Variable flowHelper : FlowHelper.
Variable currentLoopsState : gmap string Z.
Variable failedStep : option string.

Lemma fold_assignLoop_other (loops : list Step) (key : string) :
  forall res : gmap string Z,
    (forall l, In l loops -> stepName l <> key) ->
    fold_left (assignLoop flowHelper currentLoopsState failedStep) loops res
    !! key = res !! key.
Proof.
  induction loops as [|a loops IH]; intros res Hother; [reflexivity|].
  simpl. rewrite IH by (intros l Hl; apply Hother; now right).
  unfold assignLoop. apply lookup_insert_ne. apply Hother. now left.
Qed.

Lemma fold_assignLoop_loop (loops : list Step) (l : Step) :
  forall res : gmap string Z,
    NoDup (map stepName loops) ->
    In l loops ->
    fold_left (assignLoop flowHelper currentLoopsState failedStep) loops res
    !! stepName l =
    Some (if isFailedStepParent flowHelper failedStep l
          then MAX_SAFE_INTEGER
          else default 0%Z (currentLoopsState !! stepName l)).
Proof.
  induction loops as [|a loops IH]; intros res Hnodup Hin; [contradiction|].
  simpl in Hnodup. apply NoDup_cons in Hnodup as [Hfresh Hnodup].
  simpl. destruct Hin as [->|Hin].
  - rewrite fold_assignLoop_other.
    + unfold assignLoop. apply lookup_insert_eq.
    + intros l' Hl' Heq. apply Hfresh. rewrite <- Heq.
      apply list_elem_of_In. now apply in_map.
  - now apply IH.
Qed.

End LoopsState.

Lemma findLoopsState_Ok (fh : FlowHelper) (fv : FlowVersion) (run : FlowRun)
      (cur : gmap string Z) :
  findLoopsState fh fv run cur =
  Ok (fold_left (assignLoop fh cur (failedStepOf run))
                (List.filter isLoopOnItems (getAllSteps fh (trigger fv)))
                cur).
Proof.
  unfold findLoopsState, failedStepOf, findFailedStep.
  destruct (steps run); reflexivity.
Qed.

(** C5: the returned mapping has an entry for every loop node of the flow; a
    loop that is a structural ancestor of the run's failed step gets the
    sentinel; every other loop keeps the caller's index when there is one and
    gets 0 otherwise; and an entry of [currentLoopsState] that names no loop
    is kept.  Step names are unique within a flow version and are not
    empty. *)
Theorem findLoopsState_covers_loops
        (fh : FlowHelper) (fv : FlowVersion) (run : FlowRun)
        (cur : gmap string Z) :
  NoDup (map stepName
             (List.filter isLoopOnItems (getAllSteps fh (trigger fv)))) ->
  failedStepOf run <> Some "" ->
  exists state : gmap string Z,
    findLoopsState fh fv run cur = Ok state
    /\ (forall l, In l (getAllSteps fh (trigger fv)) ->
                  isLoopOnItems l = true ->
                  (forall failed,
                      failedStepOf run = Some failed ->
                      isChildOf fh l failed = true ->
                      state !! stepName l = Some MAX_SAFE_INTEGER)
                  /\ ((forall failed,
                          failedStepOf run = Some failed ->
                          isChildOf fh l failed = false) ->
                      state !! stepName l
                      = Some (default 0%Z (cur !! stepName l))))
    /\ (forall key v,
           (forall l, In l (getAllSteps fh (trigger fv)) ->
                      isLoopOnItems l = true -> stepName l <> key) ->
           cur !! key = Some v ->
           state !! key = Some v).
Proof.
  intros Hnodup Hnamed. eexists. split; [apply findLoopsState_Ok|]. split.
  - intros l Hin Hloop.
    assert (Hmem : In l (List.filter isLoopOnItems (getAllSteps fh (trigger fv))))
      by (apply filter_In; auto).
    rewrite (fold_assignLoop_loop _ _ _ _ l cur Hnodup Hmem).
    unfold isFailedStepParent. split.
    + intros failed Hfailed Hchild. rewrite Hfailed in Hnamed |- *.
      assert (Hname : failed <> "") by congruence.
      apply String.eqb_neq in Hname. now rewrite Hname, Hchild.
    + intros Hnot. destruct (failedStepOf run) as [failed|]; [|reflexivity].
      rewrite (Hnot failed eq_refl). now destruct (String.eqb failed "").
  - intros key v Hother Hcur.
    rewrite fold_assignLoop_other; [exact Hcur|].
    intros l Hl. apply filter_In in Hl as [Hin Hloop]. now apply Hother.
Qed.

(** Section 8, property 5: loop B, which holds the failed C, gets the
    sentinel; the unrelated loop D keeps the caller's index. *)
Lemma findLoopsState_covers_loops_witness :
  exists state : gmap string Z,
    findLoopsState SpecFlowHelper.flowHelper
                   (mkFlowVersion Samples.failingTrigger)
                   Samples.failingRun {[ "D" := 4%Z ]} = Ok state
    /\ state !! "B" = Some MAX_SAFE_INTEGER
    /\ state !! "D" = Some 4%Z.
Proof.
  destruct (findLoopsState_covers_loops
              SpecFlowHelper.flowHelper (mkFlowVersion Samples.failingTrigger)
              Samples.failingRun {[ "D" := 4%Z ]})
    as [state [Hstate [Hloops _]]].
  - compute_done.
  - vm_compute. discriminate.
  - exists state. split; [exact Hstate|]. split.
    + destruct (Hloops (ActionStep
                          (LoopOnItemsAction "B" (Some (CodeAction "C" None))
                             (Some (LoopOnItemsAction "D" None None)))))
        as [Hsentinel _]; [simpl; tauto|reflexivity|].
      apply (Hsentinel "C"); reflexivity.
    + destruct (Hloops (ActionStep (LoopOnItemsAction "D" None None)))
        as [_ Hkeep]; [simpl; tauto|reflexivity|].
      refine (eq_trans (Hkeep _) _); [|reflexivity].
      intros failed [= <-]. reflexivity.
Defined.

(** C10: an entry of [currentLoopsState] whose key names no loop node of the
    flow version is present in the result with its original value. *)
Theorem findLoopsState_keeps_other_keys
        (fh : FlowHelper) (fv : FlowVersion) (run : FlowRun)
        (cur : gmap string Z) (key : string) (v : Z) :
  (forall l, In l (getAllSteps fh (trigger fv)) ->
             isLoopOnItems l = true -> stepName l <> key) ->
  cur !! key = Some v ->
  exists state : gmap string Z,
    findLoopsState fh fv run cur = Ok state /\ state !! key = Some v.
Proof.
  intros Hother Hcur. eexists. split; [apply findLoopsState_Ok|].
  rewrite fold_assignLoop_other; [exact Hcur|].
  intros l Hl. apply filter_In in Hl as [Hin Hloop]. now apply Hother.
Qed.

Lemma findLoopsState_keeps_other_keys_witness :
  exists state : gmap string Z,
    findLoopsState SpecFlowHelper.flowHelper
                   (mkFlowVersion Samples.failingTrigger)
                   Samples.failingRun
                   (<[ "old" := 7%Z ]> {[ "D" := 4%Z ]}) = Ok state
    /\ state !! "old" = Some 7%Z.
Proof.
  apply findLoopsState_keeps_other_keys; [|reflexivity].
  intros l Hin Hloop. simpl in Hin.
  repeat (destruct Hin as [<-|Hin]; [try discriminate|]); contradiction.
Defined.

(** * Further properties of the code *)

(** ** Status icons *)

(** X1: The five statuses a step and a run have in common get the same variant
    from [getStatusIconForStep] and from [getStatusIcon]. *)
Theorem status_variants_agree (s : StepOutputStatus.t) :
  variant (getStatusIconForStep s) = variant (getStatusIcon (runStatusOfStep s)).
Proof. now destruct s. Qed.

(** ** Loop display state: the mapping as a whole *)

Lemma lastLoopNamed_cons (key : string) (a : Step) (loops : list Step) :
  lastLoopNamed key (a :: loops) =
  match lastLoopNamed key loops with
  | Some l => Some l
  | None => if String.eqb (stepName a) key then Some a else None
  end.
Proof.
  unfold lastLoopNamed. simpl.
  destruct (String.eqb (stepName a) key); simpl.
  - apply last_cons.
  - now destruct (last _).
Qed.

Lemma lastLoopNamed_Some (key : string) (loops : list Step) (l : Step) :
  lastLoopNamed key loops = Some l -> In l loops /\ stepName l = key.
Proof.
  unfold lastLoopNamed. intros Hlast.
  apply last_Some in Hlast as [l' Heq].
  assert (Hin : In l (List.filter (fun l => String.eqb (stepName l) key) loops))
    by (rewrite Heq; apply in_or_app; right; now left).
  apply filter_In in Hin as [Hin Hname].
  split; [exact Hin|]. now apply String.eqb_eq.
Qed.

Lemma lastLoopNamed_None (key : string) (loops : list Step) :
  lastLoopNamed key loops = None ->
  forall l, In l loops -> stepName l <> key.
Proof.
  unfold lastLoopNamed. intros Hlast l Hin Hname.
  apply last_None in Hlast.
  assert (Hmem : In l (List.filter (fun l => String.eqb (stepName l) key) loops)).
  { apply filter_In. split; [exact Hin|]. now apply String.eqb_eq. }
  rewrite Hlast in Hmem. contradiction.
Qed.

(** Every key of the object built by the reduction: written by the last loop
    of that name, or left as it was. *)
Lemma fold_assignLoop_lookup (fh : FlowHelper) (cur : gmap string Z)
      (failedStep : option string) (loops : list Step) (key : string) :
  forall res : gmap string Z,
    fold_left (assignLoop fh cur failedStep) loops res !! key =
    match lastLoopNamed key loops with
    | Some l => Some (loopIndexFor fh cur failedStep l)
    | None => res !! key
    end.
Proof.
  induction loops as [|a loops IH]; intros res; [reflexivity|].
  simpl fold_left. rewrite IH, lastLoopNamed_cons.
  destruct (lastLoopNamed key loops) as [l|]; [reflexivity|].
  unfold assignLoop. fold (loopIndexFor fh cur failedStep a).
  destruct (String.eqb_spec (stepName a) key) as [Heq|Hne].
  - rewrite Heq. apply lookup_insert_eq.
  - now apply lookup_insert_ne.
Qed.

Lemma findLoopsState_lookup (fh : FlowHelper) (fv : FlowVersion)
      (run : FlowRun) (cur state : gmap string Z) (key : string) :
  findLoopsState fh fv run cur = Ok state ->
  state !! key =
  match lastLoopNamed key (loopsOf fh fv) with
  | Some l => Some (loopIndexFor fh cur (failedStepOf run) l)
  | None => cur !! key
  end.
Proof.
  rewrite findLoopsState_Ok. intros [= <-]. apply fold_assignLoop_lookup.
Qed.

(** X2: [findLoopsState] raises nothing, whatever it is given: it calls
    [findFailedStep] only on a run that has steps, while [findFailedStep]
    itself raises on a run without steps. *)
Theorem findLoopsState_never_throws :
  (forall (fh : FlowHelper) (fv : FlowVersion) (run : FlowRun)
          (cur : gmap string Z),
      exists state, findLoopsState fh fv run cur = Ok state)
  /\ findFailedStep (mkFlowRun None) = Throw.
Proof.
  split; [|reflexivity].
  intros fh fv run cur. eexists. apply findLoopsState_Ok.
Qed.

(** X3: The keys of the result are exactly the keys of [currentLoopsState] and the
    names of the loop nodes of the flow. *)
Theorem findLoopsState_domain
        (fh : FlowHelper) (fv : FlowVersion) (run : FlowRun)
        (cur state : gmap string Z) (key : string) :
  findLoopsState fh fv run cur = Ok state ->
  (is_Some (state !! key) <->
   is_Some (cur !! key) \/ exists l, In l (loopsOf fh fv) /\ stepName l = key).
Proof.
  intros Hstate. rewrite (findLoopsState_lookup _ _ _ _ _ key Hstate).
  destruct (lastLoopNamed key (loopsOf fh fv)) as [l|] eqn:Hlast.
  - apply lastLoopNamed_Some in Hlast. split; [|eauto]. intros _. right. eauto.
  - split; [now left|]. intros [Hcur|[l [Hin Hname]]]; [exact Hcur|].
    elim (lastLoopNamed_None _ _ Hlast _ Hin Hname).
Qed.

Lemma findLoopsState_domain_witness :
  exists state : gmap string Z,
    findLoopsState SpecFlowHelper.flowHelper
                   (mkFlowVersion Samples.failingTrigger)
                   Samples.failingRun {[ "old" := 7%Z ]} = Ok state
    /\ is_Some (state !! "D") /\ is_Some (state !! "old")
    /\ ~ is_Some (state !! "C").
Proof.
  eexists. split; [apply findLoopsState_Ok|].
  pose proof (fun key =>
                findLoopsState_domain
                  SpecFlowHelper.flowHelper
                  (mkFlowVersion Samples.failingTrigger)
                  Samples.failingRun {[ "old" := 7%Z ]} _ key
                  (findLoopsState_Ok _ _ _ _)) as Hdom.
  split; [|split].
  - apply Hdom. right. exists (ActionStep (LoopOnItemsAction "D" None None)).
    split; [|reflexivity]. vm_compute. tauto.
  - apply Hdom. left. now exists 7%Z.
  - rewrite Hdom. intros [[v Hv]|[l [Hin Hname]]]; [discriminate|].
    vm_compute in Hin.
    repeat (destruct Hin as [<-|Hin]; [discriminate|]). contradiction.
Defined.

(** X4: Feeding the result back in changes nothing: for the same flow and run,
    [findLoopsState] of its own result is that result. *)
Theorem findLoopsState_idempotent
        (fh : FlowHelper) (fv : FlowVersion) (run : FlowRun)
        (cur state : gmap string Z) :
  findLoopsState fh fv run cur = Ok state ->
  findLoopsState fh fv run state = Ok state.
Proof.
  intros Hstate.
  rewrite (findLoopsState_Ok fh fv run state). f_equal.
  apply map_eq. intros key. rewrite fold_assignLoop_lookup.
  fold (loopsOf fh fv).
  rewrite (findLoopsState_lookup _ _ _ _ _ key Hstate).
  destruct (lastLoopNamed key (loopsOf fh fv)) as [l|] eqn:Hlast;
    [|reflexivity].
  f_equal. unfold loopIndexFor.
  destruct (isFailedStepParent fh (failedStepOf run) l) eqn:Hparent;
    [reflexivity|].
  destruct (lastLoopNamed_Some _ _ _ Hlast) as [_ Hname].
  rewrite (findLoopsState_lookup _ _ _ _ _ (stepName l) Hstate).
  rewrite Hname, Hlast. unfold loopIndexFor. rewrite Hparent, Hname.
  reflexivity.
Qed.

Lemma findLoopsState_idempotent_witness :
  exists state : gmap string Z,
    findLoopsState SpecFlowHelper.flowHelper
                   (mkFlowVersion Samples.failingTrigger)
                   Samples.failingRun {[ "D" := 4%Z ]} = Ok state
    /\ findLoopsState SpecFlowHelper.flowHelper
                      (mkFlowVersion Samples.failingTrigger)
                      Samples.failingRun state = Ok state.
Proof.
  eexists. split; [apply findLoopsState_Ok|].
  apply (findLoopsState_idempotent _ _ _ {[ "D" := 4%Z ]}).
  apply findLoopsState_Ok.
Defined.

(** X5: Indexes stay display indexes: when every index the caller supplies lies
    between 0 and the sentinel, so does every index of the result. *)
Theorem findLoopsState_index_range
        (fh : FlowHelper) (fv : FlowVersion) (run : FlowRun)
        (cur state : gmap string Z) :
  (forall key v, cur !! key = Some v -> (0 <= v <= MAX_SAFE_INTEGER)%Z) ->
  findLoopsState fh fv run cur = Ok state ->
  forall key v, state !! key = Some v -> (0 <= v <= MAX_SAFE_INTEGER)%Z.
Proof.
  intros Hcur Hstate key v.
  rewrite (findLoopsState_lookup _ _ _ _ _ key Hstate).
  destruct (lastLoopNamed key (loopsOf fh fv)) as [l|]; [|apply Hcur].
  intros [= <-]. unfold loopIndexFor.
  destruct (isFailedStepParent fh (failedStepOf run) l).
  - unfold MAX_SAFE_INTEGER. lia.
  - destruct (cur !! stepName l) as [w|] eqn:Hw; simpl.
    + now apply (Hcur (stepName l)).
    + unfold MAX_SAFE_INTEGER. lia.
Qed.

Lemma findLoopsState_index_range_witness :
  exists state : gmap string Z,
    findLoopsState SpecFlowHelper.flowHelper
                   (mkFlowVersion Samples.failingTrigger)
                   Samples.failingRun {[ "D" := 4%Z ]} = Ok state
    /\ forall key v, state !! key = Some v -> (0 <= v <= MAX_SAFE_INTEGER)%Z.
Proof.
  eexists. split; [apply findLoopsState_Ok|].
  apply (findLoopsState_index_range
           SpecFlowHelper.flowHelper (mkFlowVersion Samples.failingTrigger)
           Samples.failingRun {[ "D" := 4%Z ]}).
  - intros key v Hv. apply lookup_singleton_Some in Hv as [_ <-].
    unfold MAX_SAFE_INTEGER. lia.
  - apply findLoopsState_Ok.
Defined.

(** X6: When the run has no failed step and the caller already has an index for
    every loop of the flow, the caller's mapping is returned unchanged. *)
Theorem findLoopsState_unchanged
        (fh : FlowHelper) (fv : FlowVersion) (run : FlowRun)
        (cur : gmap string Z) :
  failedStepOf run = None ->
  (forall l, In l (loopsOf fh fv) -> is_Some (cur !! stepName l)) ->
  findLoopsState fh fv run cur = Ok cur.
Proof.
  intros Hfailed Hcovered. rewrite findLoopsState_Ok. f_equal.
  apply map_eq. intros key. rewrite fold_assignLoop_lookup.
  fold (loopsOf fh fv).
  destruct (lastLoopNamed key (loopsOf fh fv)) as [l|] eqn:Hlast;
    [|reflexivity].
  destruct (lastLoopNamed_Some _ _ _ Hlast) as [Hin Hname].
  unfold loopIndexFor. rewrite Hfailed. simpl.
  destruct (Hcovered l Hin) as [v Hv]. rewrite Hv. simpl.
  now rewrite <- Hname.
Qed.

Lemma findLoopsState_unchanged_witness :
  findLoopsState SpecFlowHelper.flowHelper
                 (mkFlowVersion Samples.nestedTrigger)
                 (mkFlowRun (Some Samples.nestedOutput))
                 Samples.nestedIndexes
  = Ok Samples.nestedIndexes.
Proof.
  apply findLoopsState_unchanged; [reflexivity|].
  intros l Hin. vm_compute in Hin.
  destruct Hin as [<-|[<-|[]]]; [now exists 0%Z|now exists 2%Z].
Defined.

(** ** Output locator: where a result comes from *)

Lemma iterationSnapshot_Some_inv (loopIndexes : gmap string Z)
      (loopName : string) (childOutput : option StepOutput)
      (snapshot : StepOutputs) :
  iterationSnapshot loopIndexes loopName childOutput = Ok (Some snapshot) ->
  exists st output i,
    childOutput = Some (LoopStepOutput st (Some output))
    /\ loopIndexes !! loopName = Some i
    /\ arrayAt (iterations output) i = Some snapshot.
Proof.
  destruct childOutput as [[k s [|]|st [output|]]|]; simpl; try discriminate.
  destruct (loopIndexes !! loopName) as [i|]; [|discriminate].
  intros [= Hat]. eauto 6.
Qed.

(** A record of an iteration snapshot of a recorded loop is itself
    recorded. *)
Lemma Recorded_in_snapshot (entries : StepOutputs) (loopName : string)
      (st : StepOutputStatus.t) (output : LoopStepResult)
      (iteration : StepOutputs) (name : string) (o : StepOutput) :
  Recorded entries loopName (LoopStepOutput st (Some output)) ->
  In iteration (iterations output) ->
  In (name, o) iteration ->
  Recorded entries name o.
Proof.
  intros Hrec Hit Hin.
  remember (LoopStepOutput st (Some output)) as r eqn:Hr.
  induction Hrec as [entries loopName r Hhere
                    |entries outer st' output' it' loopName r Houter Hit' Hdeep IH];
    subst r.
  - eapply Recorded_nested; eauto. now apply Recorded_here.
  - eapply Recorded_nested; eauto.
Qed.

(** A record the descent loop ends on is recorded in the run, under the name
    of the step or of one of the parents. *)
Lemma descendLoops_recorded (loopIndexes : gmap string Z) (childName : string)
      (output : StepOutputs) (names : list string) (rest : list Step) :
  forall (childOutput : option StepOutput) (r : StepOutput),
    In childName names ->
    (forall p, In p rest -> In (stepName p) names) ->
    (forall o, childOutput = Some o ->
               exists name, Recorded output name o /\ In name names) ->
    descendLoops loopIndexes childName rest childOutput = Ok (Some r) ->
    exists name, Recorded output name r /\ In name names.
Proof.
  induction rest as [|p rest IH]; intros co r Hchild Hnames Hco Hres.
  - simpl in Hres. injection Hres as Hres. now apply Hco.
  - assert (Hrest : forall q, In q rest -> In (stepName q) names)
      by (intros q Hq; apply Hnames; now right).
    rewrite descendLoops_cons in Hres.
    destruct (iterationSnapshot loopIndexes (stepName p) co)
      as [[snapshot|]|] eqn:Hsnap; [| |discriminate].
    + apply iterationSnapshot_Some_inv in Hsnap
        as [st [out [i [Hco_eq [_ Hat]]]]].
      apply (IH _ _ Hchild Hrest) in Hres; [exact Hres|].
      intros o Ho. apply lookupKey_In in Ho.
      destruct (Hco _ Hco_eq) as [loopName [Hrec _]].
      eexists. split.
      * eapply Recorded_in_snapshot; eauto using arrayAt_In.
      * destruct rest as [|next rest']; [exact Hchild|]. apply Hrest. now left.
    + now apply (IH _ _ Hchild Hrest Hco).
Qed.

(** X7: Whatever [extractStepOutput] returns is a record of the run: it is stored
    in the output mapping or in an iteration snapshot nested in it, under the
    name of the step or, when an iteration was missing on the way, under the
    name of one of its loop ancestors. *)
Theorem extractStepOutput_returns_recorded
        (fh : FlowHelper) (step : string) (loopIndexes : gmap string Z)
        (output : StepOutputs) (trig : Trigger) (r : StepOutput) :
  extractStepOutput fh step loopIndexes output trig = Ok (Some r) ->
  exists name,
    Recorded output name r
    /\ (name = step
        \/ exists path,
            findPathToStep fh trig step = Some path
            /\ In name (map stepName (List.filter isLoopOnItems path))).
Proof.
  unfold extractStepOutput.
  destruct (lookupKey step output) as [direct|] eqn:Hkey.
  - intros [= <-]. exists step. split; [|now left].
    apply Recorded_here. now apply lookupKey_In.
  - destruct (findPathToStep fh trig step) as [path|]; [|discriminate].
    unfold getLoopChildStepOutput.
    destruct (List.filter isLoopOnItems path) as [|L inner] eqn:Hloops;
      [discriminate|].
    intros Hres.
    apply (descendLoops_recorded
             _ _ output (step :: map stepName (L :: inner))) in Hres.
    + destruct Hres as [name [Hrec [Heq|Hin]]]; exists name;
        (split; [exact Hrec|]); [left; now symmetry|right].
      exists path. split; [reflexivity|]. now rewrite Hloops.
    + now left.
    + intros p Hp. right. now apply in_map.
    + intros o Ho. exists (stepName L). split.
      * apply Recorded_here. now apply lookupKey_In.
      * right. now left.
Qed.

Lemma extractStepOutput_returns_recorded_witness :
  exists name,
    Recorded Samples.singleOutput name Samples.threeIterations
    /\ (name = "step"
        \/ exists path,
            findPathToStep SpecFlowHelper.flowHelper Samples.singleTrigger "step"
            = Some path
            /\ In name (map stepName (List.filter isLoopOnItems path))).
Proof.
  apply (extractStepOutput_returns_recorded
           SpecFlowHelper.flowHelper "step" {[ "L" := 5%Z ]}).
  reflexivity.
Defined.

(** The descent reads [loopIndexes] at the names of the parents only. *)
Lemma descendLoops_indexes_agree (idx1 idx2 : gmap string Z)
      (childName : string) (parents : list Step) :
  forall childOutput : option StepOutput,
    (forall p, In p parents -> idx1 !! stepName p = idx2 !! stepName p) ->
    descendLoops idx1 childName parents childOutput
    = descendLoops idx2 childName parents childOutput.
Proof.
  induction parents as [|p rest IH]; intros co Hagree; [reflexivity|].
  rewrite !descendLoops_cons.
  assert (Hsnap : iterationSnapshot idx1 (stepName p) co
                  = iterationSnapshot idx2 (stepName p) co).
  { unfold iterationSnapshot. rewrite (Hagree p) by now left. reflexivity. }
  rewrite Hsnap.
  assert (Hrest : forall q, In q rest -> idx1 !! stepName q = idx2 !! stepName q)
    by (intros q Hq; apply Hagree; now right).
  destruct (iterationSnapshot idx2 (stepName p) co) as [[snapshot|]|];
    auto.
Qed.

(** X8: The output of a step depends on the indexes of its own loop ancestors
    only: two index mappings that agree on them give the same result. *)
Theorem extractStepOutput_indexes_agree
        (fh : FlowHelper) (step : string) (idx1 idx2 : gmap string Z)
        (output : StepOutputs) (trig : Trigger) :
  (forall path p,
      findPathToStep fh trig step = Some path ->
      In p path -> isLoopOnItems p = true ->
      idx1 !! stepName p = idx2 !! stepName p) ->
  extractStepOutput fh step idx1 output trig
  = extractStepOutput fh step idx2 output trig.
Proof.
  intros Hagree. unfold extractStepOutput.
  destruct (lookupKey step output); [reflexivity|].
  destruct (findPathToStep fh trig step) as [path|]; [|reflexivity].
  unfold getLoopChildStepOutput.
  destruct (List.filter isLoopOnItems path) as [|L inner] eqn:Hloops;
    [reflexivity|].
  apply descendLoops_indexes_agree. intros p Hp.
  rewrite <- Hloops in Hp. apply filter_In in Hp as [Hin Hloop].
  now apply (Hagree path).
Qed.

Lemma extractStepOutput_indexes_agree_witness :
  extractStepOutput SpecFlowHelper.flowHelper "step"
                    (<[ "other" := 9%Z ]> Samples.nestedIndexes)
                    Samples.nestedOutput Samples.nestedTrigger
  = extractStepOutput SpecFlowHelper.flowHelper "step" Samples.nestedIndexes
                      Samples.nestedOutput Samples.nestedTrigger.
Proof.
  apply extractStepOutput_indexes_agree.
  intros path p Hpath Hin Hloop. vm_compute in Hpath.
  injection Hpath as <-.
  destruct Hin as [<-|[<-|[]]]; reflexivity.
Defined.

(** ** The sentinel of [findLoopsState] as an index of [extractStepOutput] *)

(** X9: For a failed step nested in the single loop [L], the mapping returned by
    [findLoopsState] holds the sentinel for [L]; the sentinel addresses no
    recorded iteration, so [extractStepOutput] with that mapping returns the
    record of [L] itself, not the record of the failed step. *)
Theorem extractStepOutput_at_sentinel
        (fh : FlowHelper) (fv : FlowVersion) (run : FlowRun)
        (cur state : gmap string Z) (output : StepOutputs)
        (failed : string) (path : list Step) (L : Step)
        (st : StepOutputStatus.t) (o : LoopStepResult) :
  NoDup (map stepName (loopsOf fh fv)) ->
  steps run = Some output ->
  findFailedStep run = Ok (Some failed) ->
  failed <> "" ->
  In L (getAllSteps fh (trigger fv)) ->
  isChildOf fh L failed = true ->
  findLoopsState fh fv run cur = Ok state ->
  lookupKey failed output = None ->
  findPathToStep fh (trigger fv) failed = Some path ->
  List.filter isLoopOnItems path = [L] ->
  lookupKey (stepName L) output = Some (LoopStepOutput st (Some o)) ->
  (Z.of_nat (length (iterations o)) <= MAX_SAFE_INTEGER)%Z ->
  extractStepOutput fh failed state output (trigger fv)
  = Ok (Some (LoopStepOutput st (Some o))).
Proof.
  intros Hnodup Hsteps Hfailed Hname Hin Hchild Hstate Hkey Hpath Hloops
         Hrecord Hlen.
  assert (Hloop : isLoopOnItems L = true).
  { assert (Hmem : In L (List.filter isLoopOnItems path))
      by (rewrite Hloops; now left).
    now apply filter_In in Hmem. }
  assert (Hsentinel : state !! stepName L = Some MAX_SAFE_INTEGER).
  { rewrite findLoopsState_Ok in Hstate. injection Hstate as <-.
    rewrite (fold_assignLoop_loop fh cur (failedStepOf run) _ L).
    - unfold isFailedStepParent, failedStepOf. rewrite Hfailed.
      apply String.eqb_neq in Hname. now rewrite Hname, Hchild.
    - exact Hnodup.
    - apply filter_In. auto. }
  unfold extractStepOutput. rewrite Hkey, Hpath, Hloops.
  unfold getLoopChildStepOutput. rewrite Hrecord, descendLoops_cons.
  rewrite iterationSnapshot_loop_stale; [reflexivity|].
  unfold staleIndex. rewrite Hsentinel. right. exact Hlen.
Qed.

Lemma extractStepOutput_at_sentinel_witness :
  exists state : gmap string Z,
    findLoopsState SpecFlowHelper.flowHelper
                   (mkFlowVersion Samples.failingTrigger)
                   Samples.failingRun ∅ = Ok state
    /\ state !! "B" = Some MAX_SAFE_INTEGER
    /\ exists its,
        extractStepOutput SpecFlowHelper.flowHelper "C" state
                          [ ("A", Samples.succeeded CodeKind);
                            ("B", Samples.loopRecord its) ]
                          Samples.failingTrigger
        = Ok (Some (Samples.loopRecord its)).
Proof.
  eexists. split; [apply findLoopsState_Ok|]. split; [reflexivity|].
  eexists.
  apply (extractStepOutput_at_sentinel
           SpecFlowHelper.flowHelper (mkFlowVersion Samples.failingTrigger)
           Samples.failingRun ∅ _ _ "C"
           [ActionStep
              (LoopOnItemsAction "B" (Some (CodeAction "C" None))
                 (Some (LoopOnItemsAction "D" None None)))]
           (ActionStep
              (LoopOnItemsAction "B" (Some (CodeAction "C" None))
                 (Some (LoopOnItemsAction "D" None None)))));
    try reflexivity.
  - compute_done.
  - discriminate.
  - simpl. tauto.
  - vm_compute. discriminate.
Defined.

(** ** Failure finder: runs that grow *)

Lemma firstNonNull_app (a b : list (option string)) :
  firstNonNull (a ++ b) = nullish (firstNonNull a) (firstNonNull b).
Proof.
  induction a as [|[c|] a IH]; simpl; auto.
Qed.

(** X10: Iterations recorded after the ones already searched matter only when
    nothing was found so far: the result for the longer loop is the one of the
    earlier iterations when it is not null, and the one of the later
    iterations otherwise. *)
Theorem findFailedStepInLoop_more_iterations (its more : list StepOutputs) :
  findFailedStepInLoop (mkLoopStepResult (its ++ more)) =
  nullish (findFailedStepInLoop (mkLoopStepResult its))
          (findFailedStepInLoop (mkLoopStepResult more)).
Proof.
  rewrite !findFailedStepInLoop_iterations. simpl.
  now rewrite map_app, firstNonNull_app.
Qed.

Lemma lastFailedEntry_none_failed (entries : StepOutputs) :
  (forall name o, In (name, o) entries ->
                  status o <> StepOutputStatus.FAILED) ->
  lastFailedEntry entries = None.
Proof.
  intros Hclean. destruct (lastFailedEntry entries) as [name|] eqn:Hlast;
    [|reflexivity].
  destruct (lastFailedEntry_Some _ _ Hlast) as [o [Hin Hfailed]].
  apply isFailed_status in Hfailed. elim (Hclean _ _ Hin Hfailed).
Qed.

(** X11: Once a failed step has been found, entries that come later in the mapping
    and are not themselves FAILED never change the result, whatever their
    loops contain. *)
Theorem findFailedStep_later_entries
        (entries more : StepOutputs) (found : string) :
  (forall name o, In (name, o) more ->
                  status o <> StepOutputStatus.FAILED) ->
  findFailedStep (mkFlowRun (Some entries)) = Ok (Some found) ->
  findFailedStep (mkFlowRun (Some (entries ++ more)%list)) = Ok (Some found).
Proof.
  unfold findFailedStep. simpl. intros Hclean [= Hfound].
  rewrite fold_left_app, Hfound, fold_failedStepReducer.
  now rewrite (lastFailedEntry_none_failed _ Hclean).
Qed.

Lemma findFailedStep_later_entries_witness :
  findFailedStep
    (mkFlowRun
       (Some ([ ("A", Samples.failed CodeKind) ]
              ++ [ ("B", Samples.loopRecord
                           [ [ ("C", Samples.succeeded CodeKind) ] ]) ])%list))
  = Ok (Some "A").
Proof.
  apply findFailedStep_later_entries; [|reflexivity].
  intros name o [[= <- <-]|[]]. discriminate.
Defined.

(** ** Failure finder and output locator together *)

Lemma lookupKey_NoDup {A : Type} (obj : list (string * A)) (key : string)
      (v : A) :
  NoDup (map fst obj) -> In (key, v) obj -> lookupKey key obj = Some v.
Proof.
  induction obj as [|[k w] obj IH]; intros Hnodup Hin; [contradiction|].
  simpl in Hnodup. apply NoDup_cons in Hnodup as [Hfresh Hnodup]. simpl.
  destruct Hin as [Heq|Hin].
  - injection Heq as -> ->. now rewrite String.eqb_refl.
  - destruct (String.eqb_spec key k) as [Hk|Hne]; [|auto].
    exfalso. apply Hfresh. rewrite <- Hk. apply list_elem_of_In.
    now apply (in_map fst _ (key, v)).
Qed.

(** X12: When an entry of the run's output mapping is itself FAILED, the name
    [findFailedStep] returns is a key of the mapping, and [extractStepOutput]
    of that name returns a FAILED record, for any loop indexes and trigger.
    The keys of an object are distinct. *)
Theorem extractStepOutput_of_failed_entry
        (fh : FlowHelper) (loopIndexes : gmap string Z)
        (entries : StepOutputs) (trig : Trigger) :
  NoDup (map fst entries) ->
  (exists name o, In (name, o) entries
                  /\ status o = StepOutputStatus.FAILED) ->
  exists found r,
    findFailedStep (mkFlowRun (Some entries)) = Ok (Some found)
    /\ extractStepOutput fh found loopIndexes entries trig = Ok (Some r)
    /\ status r = StepOutputStatus.FAILED.
Proof.
  intros Hnodup [name [o [Hin Hfailed]]].
  destruct (lastFailedEntry entries) as [found|] eqn:Hlast.
  - destruct (lastFailedEntry_Some _ _ Hlast) as [r [Hr Hrfailed]].
    exists found, r. split; [|split].
    + unfold findFailedStep. simpl.
      rewrite fold_entries_scanEntries. unfold scanEntries. now rewrite Hlast.
    + unfold extractStepOutput. now rewrite (lookupKey_NoDup _ _ _ Hnodup Hr).
    + now apply isFailed_status.
  - apply isFailed_status in Hfailed.
    rewrite (lastFailedEntry_None _ Hlast _ _ Hin) in Hfailed. discriminate.
Qed.

Lemma extractStepOutput_of_failed_entry_witness :
  exists found r,
    findFailedStep (mkFlowRun (Some Samples.twoFailures)) = Ok (Some found)
    /\ extractStepOutput SpecFlowHelper.flowHelper found ∅
                         Samples.twoFailures Samples.singleTrigger
       = Ok (Some r)
    /\ status r = StepOutputStatus.FAILED.
Proof.
  apply extractStepOutput_of_failed_entry.
  - compute_done.
  - exists "A", (Samples.failed CodeKind). split; [now left|reflexivity].
Defined.

(** ** Project plan limits *)

(** X13: Off a customer platform the task limit is always defined and capped: it
    is the requested limit when that does not exceed
    [MAXIMUM_ALLOWED_TASKS], and [MAXIMUM_ALLOWED_TASKS] when the request is
    larger or absent. *)
Theorem getTasksLimit_capped (maximum : Z) (limit : option Z) :
  exists tasks,
    getTasksLimit maximum false limit = Some tasks
    /\ (tasks <= maximum)%Z
    /\ (limit = None -> tasks = maximum)
    /\ (forall l, limit = Some l -> (l <= maximum)%Z -> tasks = l)
    /\ (forall l, limit = Some l -> (maximum <= l)%Z -> tasks = maximum).
Proof.
  unfold getTasksLimit. eexists. split; [reflexivity|].
  destruct limit as [l|]; simpl; repeat split; intros; try discriminate;
    try match goal with H : Some _ = Some _ |- _ => injection H as <- end; lia.
Qed.

(** X14: On a customer platform the requested limit passes through untouched,
    absent or however large; and in both cases applying [getTasksLimit] to its
    own result changes nothing. *)
Theorem getTasksLimit_idempotent (maximum : Z) (customer : bool)
        (limit : option Z) :
  getTasksLimit maximum true limit = limit
  /\ getTasksLimit maximum customer (getTasksLimit maximum customer limit)
     = getTasksLimit maximum customer limit.
Proof.
  split; [reflexivity|]. unfold getTasksLimit.
  destruct customer; [reflexivity|]. simpl. f_equal. lia.
Qed.

(** X15: For a project of the cloud platform the limit computed by
    [getTasksLimit (isCustomerPlatform platformId)], as [update] computes it,
    never exceeds [MAXIMUM_ALLOWED_TASKS]; a project without a platform counts
    as a customer project and its limit is not capped. *)
Theorem cloud_project_tasks_capped
        (maximum : Z) (isCloudPlatform : string -> bool)
        (platformId : string) (limit : option Z) :
  isCloudPlatform platformId = true ->
  (exists tasks,
      getTasksLimit maximum
                    (isCustomerPlatform isCloudPlatform (Some platformId))
                    limit = Some tasks
      /\ (tasks <= maximum)%Z)
  /\ getTasksLimit maximum (isCustomerPlatform isCloudPlatform None) limit
     = limit.
Proof.
  intros Hcloud. unfold isCustomerPlatform, getTasksLimit. rewrite Hcloud.
  simpl. split; [|reflexivity]. eexists. split; [reflexivity|]. lia.
Qed.

Lemma cloud_project_tasks_capped_witness :
  (exists tasks,
      getTasksLimit 1000%Z
                    (isCustomerPlatform (String.eqb "cloud") (Some "cloud"))
                    (Some 5000%Z) = Some tasks
      /\ (tasks <= 1000)%Z)
  /\ getTasksLimit 1000%Z (isCustomerPlatform (String.eqb "cloud") None)
                   (Some 5000%Z)
     = Some 5000%Z.
Proof.
  apply cloud_project_tasks_capped. reflexivity.
Defined.

(** ** Loop display state and the failure finder together *)

(** X16: For a run in which no record, at any depth, is FAILED, no loop gets the
    sentinel: every loop of the flow is given the caller's index, or 0 when
    the caller has none. *)
Theorem findLoopsState_without_failure
        (fh : FlowHelper) (fv : FlowVersion) (entries : StepOutputs)
        (cur state : gmap string Z) :
  (forall name o, Recorded entries name o ->
                  status o <> StepOutputStatus.FAILED) ->
  findLoopsState fh fv (mkFlowRun (Some entries)) cur = Ok state ->
  forall l, In l (loopsOf fh fv) ->
            state !! stepName l = Some (default 0%Z (cur !! stepName l)).
Proof.
  intros Hclean Hstate l Hin.
  assert (Hfailed : failedStepOf (mkFlowRun (Some entries)) = None).
  { unfold failedStepOf, findFailedStep. simpl.
    rewrite fold_entries_scanEntries.
    destruct (scanEntries entries) as [name|] eqn:Hscan; [|reflexivity].
    destruct (scanEntries_sound entries) as [Hsome _].
    destruct (Hsome _ Hscan) as [o [Hrec Ho]]. elim (Hclean _ _ Hrec Ho). }
  rewrite (findLoopsState_lookup _ _ _ _ _ (stepName l) Hstate).
  destruct (lastLoopNamed (stepName l) (loopsOf fh fv)) as [l'|] eqn:Hlast.
  - destruct (lastLoopNamed_Some _ _ _ Hlast) as [_ Hname].
    unfold loopIndexFor. rewrite Hfailed. simpl. now rewrite Hname.
  - elim (lastLoopNamed_None _ _ Hlast l Hin eq_refl).
Qed.

Lemma findLoopsState_without_failure_witness :
  exists state : gmap string Z,
    findLoopsState SpecFlowHelper.flowHelper
                   (mkFlowVersion Samples.nestedTrigger)
                   (mkFlowRun (Some Samples.nestedOutput))
                   {[ "L2" := 1%Z ]} = Ok state
    /\ state !! "L1" = Some 0%Z /\ state !! "L2" = Some 1%Z.
Proof.
  eexists. split; [apply findLoopsState_Ok|].
  assert (Hclean : forall name o,
             Recorded Samples.nestedOutput name o ->
             status o <> StepOutputStatus.FAILED).
  { apply (proj2 (scanEntries_sound Samples.nestedOutput)). reflexivity. }
  pose proof (findLoopsState_without_failure
                SpecFlowHelper.flowHelper (mkFlowVersion Samples.nestedTrigger)
                Samples.nestedOutput {[ "L2" := 1%Z ]} _ Hclean
                (findLoopsState_Ok _ _ _ _)) as Hloops.
  split.
  - apply (Hloops (ActionStep Samples.outerLoop)). vm_compute. tauto.
  - apply (Hloops (ActionStep Samples.innerLoop)). vm_compute. tauto.
Defined.

(** X17: The sentinel is never written without cause: a loop name holds the
    sentinel in the result only if the caller's mapping already held it there,
    or a loop of that name is a structural ancestor of the run's failed
    step. *)
Theorem findLoopsState_sentinel_has_cause
        (fh : FlowHelper) (fv : FlowVersion) (run : FlowRun)
        (cur state : gmap string Z) (key : string) :
  findLoopsState fh fv run cur = Ok state ->
  state !! key = Some MAX_SAFE_INTEGER ->
  cur !! key = Some MAX_SAFE_INTEGER
  \/ exists l failed,
      In l (loopsOf fh fv) /\ stepName l = key
      /\ findFailedStep run = Ok (Some failed)
      /\ isChildOf fh l failed = true.
Proof.
  intros Hstate. rewrite (findLoopsState_lookup _ _ _ _ _ key Hstate).
  destruct (lastLoopNamed key (loopsOf fh fv)) as [l|] eqn:Hlast; [|now left].
  destruct (lastLoopNamed_Some _ _ _ Hlast) as [Hin Hname].
  unfold loopIndexFor, isFailedStepParent, failedStepOf.
  destruct (findFailedStep run) as [[failed|]|] eqn:Hfailed.
  - destruct (String.eqb failed "").
    + rewrite Hname. destruct (cur !! key) as [v|]; simpl.
      * intros [= ->]. now left.
      * discriminate.
    + destruct (isChildOf fh l failed) eqn:Hchild.
      * intros _. right. exists l, failed. auto.
      * rewrite Hname. destruct (cur !! key) as [v|]; simpl.
        -- intros [= ->]. now left.
        -- discriminate.
  - rewrite Hname. destruct (cur !! key) as [v|]; simpl.
    + intros [= ->]. now left.
    + discriminate.
  - rewrite Hname. destruct (cur !! key) as [v|]; simpl.
    + intros [= ->]. now left.
    + discriminate.
Qed.

Lemma findLoopsState_sentinel_has_cause_witness :
  (∅ : gmap string Z) !! "B" = Some MAX_SAFE_INTEGER
  \/ exists l failed,
      In l (loopsOf SpecFlowHelper.flowHelper
                    (mkFlowVersion Samples.failingTrigger))
      /\ stepName l = "B"
      /\ findFailedStep Samples.failingRun = Ok (Some failed)
      /\ isChildOf SpecFlowHelper.flowHelper l failed = true.
Proof.
  apply (findLoopsState_sentinel_has_cause
           SpecFlowHelper.flowHelper (mkFlowVersion Samples.failingTrigger)
           Samples.failingRun ∅ _ "B" (findLoopsState_Ok _ _ _ _)).
  reflexivity.
Defined.
